(** * GreenScheduling: the sustainability scoring engine, embedded in Rocq

    A shallow embedding of the Go packages [greenscheduling],
    [sustainabilityprofile], [sicclient], [sicparams] and [sicresponse].

    Conventions of the embedding:
    - [int64] values are [Z] with the wrap-around of Go's arithmetic
      written out ([Int64.wrap]); integer division truncates toward zero
      and panics on a zero divisor;
    - a Go panic is the [Panics] outcome, a normal return is [Returns];
      a [(value, error)] pair is a [result];
    - [float64] values of the scoring model are real numbers: rounding,
      overflow to infinity, underflow to zero and NaN are not modelled, and
      the properties stated of the scoring model are those that rounding
      and underflow leave true; the module [Float64] evaluates the
      arithmetic of the decay factor and of the cost term on IEEE 754
      binary64 values, where the two differ;
    - a [time.Time] is a count of nanoseconds since the zero [time.Time],
      a [time.Duration] is an [int64] count of nanoseconds;
    - a [[]string] is a reference into a store of backing arrays, so that
      copies of one slice header share their elements; a slice spans its
      whole array, so two slices are the same slice or share no element;
    - the clock, the token endpoint, the cluster's label lookup and the
      telemetry calls are oracles: variables of the sections that use
      them. *)

From Stdlib Require Import ZArith Reals Lra Lia.
From Stdlib Require Floats.
From stdpp Require Import base gmap list strings pretty.

Local Open Scope Z_scope.

(** ** Outcomes of Go calls *)

(** What a call does: it returns a value or it panics with a message. *)
Inductive outcome (A : Type) : Type :=
  | Returns (a : A)
  | Panics (msg : string).
Arguments Returns {A} a.
Arguments Panics {A} msg.

(** ** 64-bit signed integers *)

Module Int64.

Definition min_int : Z := - 2 ^ 63.
Definition max_int : Z := 2 ^ 63 - 1.

Definition in_range (z : Z) : Prop := min_int <= z <= max_int.

(** Two's complement wrap-around of a mathematical integer. *)
Definition wrap (z : Z) : Z := (z + 2 ^ 63) mod 2 ^ 64 - 2 ^ 63.

Definition mul (a b : Z) : Z := wrap (a * b).

(** Go's [a / b] on [int64]: the quotient truncated toward zero; a zero
    divisor is a run-time panic. *)
Definition div (a b : Z) : outcome Z :=
  if b =? 0 then Panics "runtime error: integer divide by zero"
  else Returns (wrap (a ÷ b)).

End Int64.

(** ** Comparisons of the modelled [float64] values *)

Definition Rltb (x y : R) : bool := if Rlt_dec x y then true else false.
Definition Rleb (x y : R) : bool := if Rle_dec x y then true else false.

(** ** Errors returned as values *)

(** A Go result pair [(value, error)]: the value, or the error's text. *)
Inductive result (A : Type) : Type :=
  | Ok (a : A)
  | Err (e : string).
Arguments Ok {A} a.
Arguments Err {A} e.

(** ** Query parameters (package sicparams) *)

Module Sicparams.

(** *** Backing arrays of string slices *)

(** A [[]string] is the address of its backing array; the store maps the
    allocated addresses to their elements.  A slice whose address is not
    allocated has no elements (the nil slice).  A slice spans its whole
    array: two slices with one address are the same slice, two slices with
    different addresses share no element, and slices that overlap in part
    (sub-slices of one array) are outside the model. *)
Abbreviation loc := positive.
Abbreviation store := (gmap positive (list string)).

(** The value of a [Filter], an [interface{}]: the dynamic types carried. *)
Inductive value : Type :=
  | VString (s : string)
  | VStrings (l : loc)
  | VInt (n : Z)
  | VNil.

(** [values] as a whole, [values[i]], and [values[i] = s]. *)
Definition elems (h : store) (l : loc) : list string := default [] (h !! l).

Definition load (h : store) (l : loc) (i : nat) : string :=
  default "" (elems h l !! i).

Definition assign (h : store) (l : loc) (i : nat) (s : string) : store :=
  alter (fun vs => <[i := s]> vs) l h.

(** [strings.Join] *)
Definition Join (elts : list string) (sep : string) : string :=
  String.concat sep elts.

(** [fmt]'s [%v] verb on the modelled dynamic types. *)
Definition fmt_v (h : store) (v : value) : string :=
  match v with
  | VString s => s
  | VStrings l => "[" +:+ Join (elems h l) " " +:+ "]"
  | VInt n => pretty n
  | VNil => "<nil>"
  end.

(** The name [fmt] prints for a dynamic type in a failed type assertion. *)
Definition type_name (v : value) : string :=
  match v with
  | VString _ => "string"
  | VStrings _ => "[]string"
  | VInt _ => "int"
  | VNil => "nil"
  end.

(** *** Filters *)

Definition FilterKey : Type := string.

Definition EntityID : FilterKey := "entityId".
Definition EntityMake : FilterKey := "entityMake".
Definition EntityModel : FilterKey := "entityModel".
Definition EntityType : FilterKey := "entityType".
Definition EntitySerialNum : FilterKey := "entitySerialNum".
Definition EntityProductID : FilterKey := "entityProductId".
Definition LocationName : FilterKey := "locationName".
Definition LocationID : FilterKey := "locationId".
Definition LocationCity : FilterKey := "locationCity".
Definition LocationState : FilterKey := "locationState".
Definition LocationCountry : FilterKey := "locationCountry".
Definition Name : FilterKey := "name".

Definition FilterOperator : Type := string.

Definition Equals : FilterOperator := "eq".
Definition Contains : FilterOperator := "contains".
Definition In : FilterOperator := "in".

Record Filter : Type := mkFilter {
  Key : FilterKey;
  Operator : FilterOperator;
  Value : value
}.

Definition isValidKey (key : FilterKey) : bool :=
  existsb (String.eqb key)
    [EntityID; EntityMake; EntityModel; EntityType; EntitySerialNum;
     EntityProductID; LocationName; LocationID;
     LocationCity; LocationState; LocationCountry; Name].

Definition isValidOperator (operator : FilterOperator) : bool :=
  existsb (String.eqb operator) [Equals; Contains; In].

Definition NewFilter (key : FilterKey) (operator : FilterOperator)
  (v : value) : result Filter :=
  if negb (isValidKey key) then Err ("invalid filter key: " +:+ key)
  else if negb (isValidOperator operator)
       then Err ("invalid filter operator: " +:+ operator)
       else Ok (mkFilter key operator v).

(** The loop of [formatInValues]: [values[i] = "'" + values[i] + "'"] for
    each index of the slice, in the shared backing array. *)
Definition quoteAll (l : loc) (h : store) : store :=
  fold_left (fun h i => assign h l i ("'" +:+ load h l i +:+ "'"))
            (seq 0 (length (elems h l))) h.

Definition formatInValues (l : loc) (h : store) : string * store :=
  let h' := quoteAll l h in (Join (elems h' l) ", ", h').

(** [Filter.GetValue]: the text or the panic, and the store afterwards. *)
Definition GetValue (f : Filter) (h : store) : outcome string * store :=
  if String.eqb (Operator f) In then
    match Value f with
    | VStrings l =>
        let '(s, h') := formatInValues l h in
        (Returns (Key f +:+ " in (" +:+ s +:+ ")"), h')
    | v =>
        (Panics ("interface conversion: interface {} is " +:+ type_name v
                 +:+ ", not []string"), h)
    end
  else if String.eqb (Operator f) Contains then
    (Returns ("contains(" +:+ Key f +:+ ", '" +:+ fmt_v h (Value f) +:+ "')"), h)
  else
    (Returns (Key f +:+ " " +:+ Operator f +:+ " '" +:+ fmt_v h (Value f) +:+ "'"),
     h).

(** *** Sorts, offset and limit *)

Definition SortKey : Type := string.
Definition SortOrder : Type := string.

Definition Ascending : SortOrder := "asc".
Definition Descending : SortOrder := "desc".

Record Sort : Type := mkSort { SKey : SortKey; Order : SortOrder }.

Definition Sort_GetValue (s : Sort) : string := SKey s +:+ " " +:+ Order s.

Record Offset : Type := mkOffset { OValue : Z }.
Record Limit : Type := mkLimit { LValue : Z }.

Definition Offset_GetValue (o : Offset) : string := pretty (OValue o).
Definition Limit_GetValue (l : Limit) : string := pretty (LValue l).

(** *** Params *)

Record Params : Type := mkParams {
  filters : list Filter;
  sorts : list Sort;
  offset : option Offset;
  limit : option Limit
}.

Definition NewParams : Params := mkParams [] [] None None.

Definition AddFilter (p : Params) (filter : Filter) : Params :=
  mkParams (filters p ++ [filter]) (sorts p) (offset p) (limit p).

Definition AddSort (p : Params) (sort : Sort) : Params :=
  mkParams (filters p) (sorts p ++ [sort]) (offset p) (limit p).

(** [url.Values] and its [Add]. *)
Abbreviation Values := (gmap string (list string)).

Definition Values_Add (key val : string) (q : Values) : Values :=
  <[key := default [] (q !! key) ++ [val]]> q.

(** First loop of [ToQueryParams]. *)
Fixpoint addFilters (fs : list Filter) (q : Values) (h : store)
  : outcome Values * store :=
  match fs with
  | [] => (Returns q, h)
  | f :: fs' =>
      match GetValue f h with
      | (Panics msg, h') => (Panics msg, h')
      | (Returns s, h') => addFilters fs' (Values_Add "filter" s q) h'
      end
  end.

Definition addSorts (ss : list Sort) (q : Values) : Values :=
  fold_left (fun q s => Values_Add "sort" (Sort_GetValue s) q) ss q.

Definition ToQueryParams (p : Params) (h : store) : outcome Values * store :=
  match addFilters (filters p) ∅ h with
  | (Panics msg, h') => (Panics msg, h')
  | (Returns q, h') =>
      let q := addSorts (sorts p) q in
      let q := match offset p with
               | Some o => Values_Add "offset" (Offset_GetValue o) q
               | None => q
               end in
      let q := match limit p with
               | Some l => Values_Add "limit" (Limit_GetValue l) q
               | None => q
               end in
      (Returns q, h')
  end.

(** *** Construction of sorts, offsets and limits *)

Definition SortByEntityID : SortKey := "entityId".
Definition SortByEntityMake : SortKey := "entityMake".
Definition SortByEntityModel : SortKey := "entityModel".
Definition SortByEntityType : SortKey := "entityType".
Definition SortByEntitySerialNum : SortKey := "entitySerialNum".
Definition SortByEntityProductID : SortKey := "entityProductId".
Definition SortByLocationName : SortKey := "locationName".
Definition SortByLocationID : SortKey := "locationId".
Definition SortByLocationCity : SortKey := "locationCity".
Definition SortByLocationState : SortKey := "locationState".
Definition SortByLocationCountry : SortKey := "locationCountry".
Definition SortByName : SortKey := "name".

Definition isValidSortKey (key : SortKey) : bool :=
  existsb (String.eqb key)
    [SortByEntityID; SortByEntityMake; SortByEntityModel;
     SortByEntityType; SortByEntitySerialNum; SortByEntityProductID;
     SortByLocationName; SortByLocationID; SortByLocationCity;
     SortByLocationState; SortByLocationCountry; SortByName].

Definition isValidSortOrder (order : SortOrder) : bool :=
  existsb (String.eqb order) [Ascending; Descending].

Definition NewSort (key : SortKey) (order : SortOrder) : result Sort :=
  if negb (isValidSortKey key) then Err ("invalid sort key: " +:+ key)
  else if negb (isValidSortOrder order)
       then Err ("invalid sort order: " +:+ order)
       else Ok (mkSort key order).

Definition NewOffset (value : Z) : Offset := mkOffset value.
Definition NewLimit (value : Z) : Limit := mkLimit value.

(** [AddOffset] and [AddLimit] store the pointer they are given; [None] is
    the nil pointer. *)
Definition AddOffset (p : Params) (o : option Offset) : Params :=
  mkParams (filters p) (sorts p) o (limit p).

Definition AddLimit (p : Params) (l : option Limit) : Params :=
  mkParams (filters p) (sorts p) (offset p) l.

(** *** Measures of the stores and texts, for the proofs *)

(** What [formatInValues] makes of one member. *)
Definition quote (s : string) : string := "'" +:+ s +:+ "'".

(** Total length of the members of a slice. *)
Definition weight (vs : list string) : nat :=
  foldr (fun v n => (String.length v + n)%nat) 0%nat vs.

(** [h'] holds the arrays of [h] with members at least as long: the order
    in which the stores of successive [GetValue] calls stand. *)
Definition below (h h' : store) : Prop :=
  forall l, length (elems h' l) = length (elems h l)
            /\ (weight (elems h l) <= weight (elems h' l))%nat.

(** Where the text of a filter came from in a run of the first loop that
    started in [h] and ended in [h']. *)
Definition emitted (h h' : store) (f : Filter) (s : string) : Prop :=
  exists g, below h g /\ below (GetValue f g).2 h'
            /\ (GetValue f g).1 = Returns s.

End Sicparams.

(** ** Instants and durations (Go's package time, as far as it is used) *)

Module GoTime.

(** A [time.Time] is the count of nanoseconds since the zero [time.Time];
    the zero value is 0.  A [time.Duration] is an [int64] of nanoseconds. *)
Definition Time : Type := Z.
Definition Duration : Type := Z.

Definition zeroTime : Time := 0.

Definition Second : Duration := 1000000000.
Definition Hour : Duration := 3600 * Second.

(** [t.After(u)] *)
Definition After (t u : Time) : bool := u <? t.

(** [t.Add(d)] *)
Definition Add (t : Time) (d : Duration) : Time := t + d.

(** [t.Sub(u)]: the difference, held at the largest or smallest
    [Duration] when it does not fit. *)
Definition Sub (t u : Time) : Duration :=
  if Int64.max_int <? t - u then Int64.max_int
  else if t - u <? Int64.min_int then Int64.min_int
  else t - u.

(** [d.Hours()]: whole hours plus the remaining nanoseconds as a fraction
    of an hour. *)
Definition Hours (d : Duration) : R :=
  (IZR (d ÷ Hour) + IZR (Z.rem d Hour) / (60 * 60 * 1e9))%R.

End GoTime.

(** ** The token manager (package sicclient) *)

Module Sicclient.
Import GoTime.

Definition grantType : string := "client_credentials".
Definition contentTypeHeader : string := "application/x-www-form-urlencoded".
Definition StatusOK : Z := 200.

Record TokenResponse : Type := mkTokenResponse {
  AccessToken : string;
  TokenType : string;
  ExpiresIn : Z
}.

Record TokenConfig : Type := mkTokenConfig {
  URL : string;
  ClientID : string;
  ClientSecret : string
}.

Record TokenInfo : Type := mkTokenInfo {
  Token : string;
  Expiry : Time
}.

(** The [httpClient] field is the endpoint oracle below. *)
Record TokenManager : Type := mkTokenManager {
  config : TokenConfig;
  tokenInfo : TokenInfo
}.

Definition NewTokenManager (config : TokenConfig) : TokenManager :=
  mkTokenManager config (mkTokenInfo "" zeroTime).

(** An HTTP request as [GenerateToken] builds it, and what
    [httpClient.Do] gives back. *)
Record Request : Type := mkRequest {
  Method : string;
  Target : string;
  ContentType : string;
  Body : string
}.

Inductive RoundTrip : Type :=
  | TransportError (e : string)
  | Response (StatusCode : Z) (Status : string) (RespBody : string).

(** The world outside the manager: how often the clock was read, and the
    requests sent so far. *)
Record World : Type := mkWorld {
  clockReads : nat;
  sent : list Request
}.

Section Oracles.

(** The [n]-th reading of [time.Now()]. *)
Variable clock : nat -> Time.
(** The answer of the token endpoint to the [n]-th request sent. *)
Variable endpoint : nat -> Request -> RoundTrip.
(** [url.QueryEscape], the error of [http.NewRequest] on a URL it cannot
    parse, and the JSON decoding of a token response. *)
Variable QueryEscape : string -> string.
Variable urlError : string -> option string.
Variable decodeTokenResponse : string -> result TokenResponse.

Definition Now (w : World) : Time * World :=
  (clock (clockReads w), mkWorld (S (clockReads w)) (sent w)).

Definition Do (req : Request) (w : World) : RoundTrip * World :=
  (endpoint (length (sent w)) req, mkWorld (clockReads w) (sent w ++ [req])).

Definition NewRequest (method url body : string) : result Request :=
  match urlError url with
  | Some e => Err e
  | None => Ok (mkRequest method url "" body)
  end.

(** [data.Encode()]: the three form fields, sorted by key. *)
Definition encodeForm (c : TokenConfig) : string :=
  "client_id=" +:+ QueryEscape (ClientID c)
  +:+ "&client_secret=" +:+ QueryEscape (ClientSecret c)
  +:+ "&grant_type=" +:+ QueryEscape grantType.

(** [GenerateToken]: the error (or nil), the manager and the world after
    the call. *)
Definition GenerateToken (tm : TokenManager) (w : World)
  : option string * TokenManager * World :=
  match NewRequest "POST" (URL (config tm)) (encodeForm (config tm)) with
  | Err e => (Some e, tm, w)
  | Ok req =>
      let req := mkRequest (Method req) (Target req) contentTypeHeader
                   (Body req) in
      let '(resp, w) := Do req w in
      match resp with
      | TransportError e => (Some e, tm, w)
      | Response code status body =>
          if negb (code =? StatusOK)
          then (Some ("failed to generate token: " +:+ status), tm, w)
          else
            match decodeTokenResponse body with
            | Err e => (Some e, tm, w)
            | Ok tokenResp =>
                let '(now, w) := Now w in
                (None,
                 mkTokenManager (config tm)
                   (mkTokenInfo (AccessToken tokenResp)
                      (Add now (Int64.mul (ExpiresIn tokenResp) Second))),
                 w)
            end
      end
  end.

Definition RefreshToken (tm : TokenManager) (w : World)
  : option string * TokenManager * World :=
  GenerateToken tm w.

(** [GetToken]: the token or the error, the manager and the world after
    the call. *)
Definition GetToken (tm : TokenManager) (w : World)
  : result string * TokenManager * World :=
  let '(now, w) := Now w in
  if After now (Expiry (tokenInfo tm)) then
    match RefreshToken tm w with
    | (Some err, tm, w) => (Err err, tm, w)
    | (None, tm, w) => (Ok (Token (tokenInfo tm)), tm, w)
    end
  else (Ok (Token (tokenInfo tm)), tm, w).

(** The request [GenerateToken] sends for a manager, and the world after
    one more reading of the clock. *)
Definition tokenRequest (tm : TokenManager) : Request :=
  mkRequest "POST" (URL (config tm)) contentTypeHeader
    (encodeForm (config tm)).

Definition tick (w : World) : World :=
  mkWorld (S (clockReads w)) (sent w).

End Oracles.

End Sicclient.

(** ** Telemetry responses (package sicresponse) *)

Module Sicresponse.

(** The nullable numeric fields are pointers in the source: [None] is the
    nil pointer.  The identification strings of an entity are not read by
    the scoring path and are left out, its serial number apart. *)
Record UsageEntity : Type := mkUsageEntity {
  EntitySerialNum : string;
  CostUsd : option R;
  Co2eMetricTon : option R;
  Kwh : option R
}.

Definition GetCostUsd (e : UsageEntity) : R :=
  match CostUsd e with None => 0%R | Some x => x end.

Definition GetCo2eMetricTon (e : UsageEntity) : R :=
  match Co2eMetricTon e with None => 0%R | Some x => x end.

Definition GetKwh (e : UsageEntity) : R :=
  match Kwh e with None => 0%R | Some x => x end.

Record UsageByEntityResponse : Type := mkUsageByEntityResponse {
  Items : list UsageEntity;
  Count : Z;
  Total : Z;
  Offset : Z
}.

Record UsageSeriesItem : Type := mkUsageSeriesItem {
  TimeBucket : string;
  SCostUsd : option R;
  SCo2eMetricTon : option R;
  SKwh : option R
}.

Definition Series_GetCo2eMetricTon (u : UsageSeriesItem) : R :=
  match SCo2eMetricTon u with Some x => x | None => 0%R end.

Record UsageSeriesResponse : Type := mkUsageSeriesResponse {
  SItems : list UsageSeriesItem;
  SCount : Z
}.

Section Parse.

(** [time.Parse(time.RFC3339, s)] *)
Variable parseRFC3339 : string -> result GoTime.Time.

Definition GetTimeBucket (u : UsageSeriesItem) : result GoTime.Time :=
  match parseRFC3339 (TimeBucket u) with
  | Err e => Err ("error parsing time: " +:+ e)
  | Ok parsedTime => Ok parsedTime
  end.

End Parse.

End Sicresponse.

(** ** The telemetry client (package sicclient) *)

Module SicApi.
Import GoTime Sicclient.

(** [sicclient.Config] and [sicclient.Client] *)
Record Config : Type := mkConfig {
  Hostname : string;
  tokenConfig : TokenConfig
}.

Record Client : Type := mkClient {
  hostname : string;
  tokenManager : TokenManager
}.

Definition New (config : Config) : Client :=
  mkClient (Hostname config) (NewTokenManager (tokenConfig config)).

(** A GET request of [doGetRequest] with its [Authorization] header, and
    what [http.DefaultClient.Do] gives back; the body of a response is the
    text read from it, or the error of reading it. *)
Record ApiRequest : Type := mkApiRequest {
  AMethod : string;
  AURL : string;
  Authorization : string
}.

Inductive ApiReply : Type :=
  | ApiTransportError (e : string)
  | ApiResponse (StatusCode : Z) (Status : string) (RespBody : result string).

(** The network as the client sees it: the world of the token manager and
    the telemetry requests sent so far. *)
Record Net : Type := mkNet {
  tokenWorld : World;
  apiSent : list ApiRequest
}.

Section Oracles.

Variable clock : nat -> Time.
Variable endpoint : nat -> Request -> RoundTrip.
Variable QueryEscape : string -> string.
Variable urlError : string -> option string.
Variable decodeTokenResponse : string -> result TokenResponse.
(** The answer of the telemetry API to the [n]-th request sent, and
    [url.Values.Encode]. *)
Variable api : nat -> ApiRequest -> ApiReply.
Variable Encode : Sicparams.Values -> string.

Section Decode.

(** The JSON decoding into the response type of the operation. *)
Variable A : Type.
Variable decode : string -> result A.

(** [doGetRequest]: the decoded response or the error, the client (its
    token manager) and the network after the call. *)
Definition doGetRequest (c : Client) (apiURL : string) (n : Net)
  : result A * Client * Net :=
  match Sicclient.GetToken clock endpoint QueryEscape urlError
          decodeTokenResponse (tokenManager c) (tokenWorld n) with
  | (Err err, tm, w) =>
      (Err ("failed to get access token: " +:+ err),
       mkClient (hostname c) tm, mkNet w (apiSent n))
  | (Ok token, tm, w) =>
      let c := mkClient (hostname c) tm in
      match urlError apiURL with
      | Some err =>
          (Err ("failed to create request: " +:+ err), c,
           mkNet w (apiSent n))
      | None =>
          let req := mkApiRequest "GET" apiURL ("Bearer " +:+ token) in
          let n' := mkNet w (apiSent n ++ [req]) in
          match api (length (apiSent n)) req with
          | ApiTransportError err =>
              (Err ("API request failed: " +:+ err), c, n')
          | ApiResponse code status body =>
              if negb (code =? StatusOK) then
                match body with
                | Err readErr =>
                    (Err ("API returned status " +:+ status
                          +:+ ", failed to read body: " +:+ readErr), c, n')
                | Ok text =>
                    (Err ("API returned status " +:+ status +:+ ": "
                          +:+ text), c, n')
                end
              else
                match body with
                | Err err =>
                    (Err ("failed to unmarshal response: " +:+ err), c, n')
                | Ok text =>
                    match decode text with
                    | Err err =>
                        (Err ("failed to unmarshal response: " +:+ err), c,
                         n')
                    | Ok response => (Ok response, c, n')
                    end
                end
          end
      end
  end.

(** The URL of an operation: the path with its required query values,
    then the serialized optional parameters; [None] is the nil pointer.
    Serializing the parameters can panic and can rewrite the store. *)
Definition withParams (apiURL : string) (parameters : option Sicparams.Params)
  (h : Sicparams.store) : outcome string * Sicparams.store :=
  match parameters with
  | None => (Returns apiURL, h)
  | Some p =>
      match Sicparams.ToQueryParams p h with
      | (Panics msg, h') => (Panics msg, h')
      | (Returns q, h') => (Returns (apiURL +:+ "&" +:+ Encode q), h')
      end
  end.

Definition usageByEntityURL (c : Client) (startTime endTime : string)
  : string :=
  "https://" +:+ hostname c
  +:+ "/sustainability-insight-ctr/v1beta1/usage-by-entity?start-time="
  +:+ QueryEscape startTime +:+ "&end-time=" +:+ QueryEscape endTime.

Definition usageSeriesURL (c : Client) (startTime endTime interval : string)
  : string :=
  "https://" +:+ hostname c
  +:+ "/sustainability-insight-ctr/v1beta1/usage-series?start-time="
  +:+ QueryEscape startTime +:+ "&end-time=" +:+ QueryEscape endTime
  +:+ "&interval=" +:+ QueryEscape interval.

(** The shape [GetUsageByEntity] and [GetUsageSeries] share: build the
    URL, then [doGetRequest]. *)
Definition getUsage (baseURL : string) (c : Client)
  (parameters : option Sicparams.Params) (h : Sicparams.store) (n : Net)
  : outcome (result A) * Sicparams.store * Client * Net :=
  match withParams baseURL parameters h with
  | (Panics msg, h') => (Panics msg, h', c, n)
  | (Returns apiURL, h') =>
      let '(r, c', n') := doGetRequest c apiURL n in
      (Returns r, h', c', n')
  end.

Definition GetUsageByEntity (c : Client) (startTime endTime : string)
  (parameters : option Sicparams.Params) (h : Sicparams.store) (n : Net)
  : outcome (result A) * Sicparams.store * Client * Net :=
  getUsage (usageByEntityURL c startTime endTime) c parameters h n.

Definition GetUsageSeries (c : Client) (startTime endTime interval : string)
  (parameters : option Sicparams.Params) (h : Sicparams.store) (n : Net)
  : outcome (result A) * Sicparams.store * Client * Net :=
  getUsage (usageSeriesURL c startTime endTime interval) c parameters h n.

End Decode.

End Oracles.

End SicApi.

(** ** The decay-weighted scoring model (package sustainabilityprofile) *)

Module Decay.
Local Open Scope R_scope.

Record DecayParameters : Type := mkDecayParameters {
  LatestTime : GoTime.Time;
  DecayRate : R
}.

Definition NewDecayParameters (latestTime : GoTime.Time) (decayRate : R)
  : DecayParameters :=
  mkDecayParameters latestTime decayRate.

Record EmissionDataPoint : Type := mkEmissionDataPoint {
  Co2 : R;
  Time : GoTime.Time
}.

Definition NewEmissionDataPoint (co2 : R) (timestamp : GoTime.Time)
  : EmissionDataPoint :=
  mkEmissionDataPoint co2 timestamp.

(** The decay of [CalculateDecayFactor] as a function of the decay rate and
    of the time difference in hours: 1 by default, the logistic value when
    the difference is not negative.  The exponential is the real one:
    [math.Exp] rounds, and underflows to 0 for a large product of rate and
    hours ([Float64.decay] gives the quotient on binary64 values). *)
Definition decayAt (decayRate timeDifference : R) : R :=
  if Rleb 0 timeDifference
  then exp (- decayRate * timeDifference)
       / (1 + exp (- decayRate * timeDifference))
  else 1.

Definition CalculateDecayFactor (e : EmissionDataPoint)
  (params : DecayParameters) : R :=
  let timeDifference := GoTime.Hours (GoTime.Sub (LatestTime params) (Time e)) in
  decayAt (DecayRate params) timeDifference.

End Decay.

Module Weights.

Record SustainabilityWeights : Type := mkSustainabilityWeights {
  CO2DecayWeight : R;
  TotalCO2Weight : R;
  CostWeight : R;
  DecayRate : R
}.

Definition NewSustainabilityWeights (co2DecayWeight totalCO2Weight costWeight
  decayRate : R) : SustainabilityWeights :=
  mkSustainabilityWeights co2DecayWeight totalCO2Weight costWeight decayRate.

End Weights.

Module Profile.
Import Decay Weights.
Local Open Scope R_scope.

Record SustainabilityProfile : Type := mkSustainabilityProfile {
  Emissions : list EmissionDataPoint;
  TotalCo2 : R;
  TotalCost : R
}.

Definition NewSustainabilityProfile (emissions : list EmissionDataPoint)
  (totalCo2 totalCost : R) : SustainabilityProfile :=
  mkSustainabilityProfile emissions totalCo2 totalCost.

(** The first loop of [calculateCO2WeightedScore], seeded with [seed]. *)
Definition latestTimeFrom (seed : GoTime.Time)
  (emissions : list EmissionDataPoint) : GoTime.Time :=
  fold_left (fun latestTime emission =>
               if GoTime.After (Time emission) latestTime
               then Time emission else latestTime)
            emissions seed.

(** The second loop of [calculateCO2WeightedScore].  The sum is the real
    one; the code rounds after every addition, so that its result can
    depend on the order of the points. *)
Definition weightedCO2From (latestTime : GoTime.Time) (decayRate : R)
  (emissions : list EmissionDataPoint) : R :=
  fold_left (fun weightedCO2 emission =>
               weightedCO2
               + CalculateDecayFactor emission
                   (NewDecayParameters latestTime decayRate)
                 * Co2 emission)
            emissions 0.

Definition calculateCO2WeightedScore (data : SustainabilityProfile)
  (co2Weight decayRate : R) : R :=
  match Emissions data with
  | [] => 0
  | first :: _ =>
      let latestTime := latestTimeFrom (Time first) (Emissions data) in
      co2Weight * weightedCO2From latestTime decayRate (Emissions data)
  end.

Definition calculateTotalCO2WeightedScore (data : SustainabilityProfile)
  (totalCO2Weight : R) : R :=
  totalCO2Weight * TotalCo2 data.

(** The division is the real one; [Float64.costWeightedScore] gives the
    quotient on binary64 values, where [1 + totalCost] is rounded. *)
Definition calculateCostWeightedScore (data : SustainabilityProfile)
  (costWeight : R) : R :=
  costWeight / (1 + TotalCost data).

Definition CalculateScore (data : SustainabilityProfile)
  (weights : SustainabilityWeights) : R :=
  let co2WeightedScore :=
    calculateCO2WeightedScore data (CO2DecayWeight weights)
      (Weights.DecayRate weights) in
  let totalCO2WeightedScore :=
    calculateTotalCO2WeightedScore data (TotalCO2Weight weights) in
  let costWeightedScore :=
    calculateCostWeightedScore data (CostWeight weights) in
  co2WeightedScore + totalCO2WeightedScore + costWeightedScore.

(** *** The score as the specification words it *)

(** The reference time: the maximum timestamp across the emission points. *)
Definition referenceTime (first : EmissionDataPoint)
  (others : list EmissionDataPoint) : GoTime.Time :=
  fold_right (fun e latest => Z.max (Time e) latest) (Time first) others.

(** The decay factor of a point against the reference time. *)
Definition decayFactor (reference : GoTime.Time) (decayRate : R)
  (e : EmissionDataPoint) : R :=
  decayAt decayRate (GoTime.Hours (GoTime.Sub reference (Time e))).

(** [decayedSum]: the sum over all emission points of
    [decayFactor_i * co2_i]. *)
Definition decayedSum (emissions : list EmissionDataPoint) (decayRate : R)
  : R :=
  match emissions with
  | [] => 0
  | first :: others =>
      fold_right (fun e sum => decayFactor (referenceTime first others)
                                 decayRate e * Co2 e + sum)
                 0 emissions
  end.

Definition score_spec (data : SustainabilityProfile)
  (weights : SustainabilityWeights) : R :=
  CO2DecayWeight weights * decayedSum (Emissions data) (Weights.DecayRate weights)
  + TotalCO2Weight weights * TotalCo2 data
  + CostWeight weights / (1 + TotalCost data).

End Profile.

(** ** The arithmetic of the model on binary64 values *)

(** Go's [float64] is IEEE 754 binary64 with rounding to nearest even, which
    the primitive floats implement.  [math.Exp] is library code; the decay is
    given here as a function of the value it returned. *)
Module Float64.
Import PrimFloat.
Local Open Scope float_scope.

(** The [decay] of [CalculateDecayFactor] on a time difference that is not
    negative, [e] being the value of [math.Exp(-params.DecayRate *
    timeDifference)]. *)
Definition decay (e : float) : float := e / (1 + e).

(** The cost term of [calculateCostWeightedScore]. *)
Definition costWeightedScore (costWeight totalCost : float) : float :=
  costWeight / (1 + totalCost).

End Float64.

(** ** What the plugin uses of the host scheduler's package framework *)

Module Framework.

(** Modelled from the spec: [framework.MaxNodeScore], the score ceiling of
    the host scheduler, is declared outside this repository; the spec's
    normalizer example fixes it to 100. *)
Definition MaxNodeScore : Z := 100.

(** [framework.NodeScore] *)
Record NodeScore : Type := mkNodeScore { Name : string; Score : Z }.

Abbreviation NodeScoreList := (list NodeScore).

(** [*framework.Status] *)
Inductive Status : Type :=
  | Success
  | Error (e : string).

End Framework.

(** ** The plugin's arguments (package config of the scheduler plugins) *)

Module ApiConfig.

(** Modelled from the spec: the declaration of [config.GreenSchedulingArgs]
    is not among the sources; its fields are the settings of the spec's
    configuration surface, under the names and types the plugin reads them
    with. *)
Record GreenSchedulingArgs : Type := mkGreenSchedulingArgs {
  TokenURL : string;
  ClientID : string;
  ClientSecret : string;
  SICHostname : string;
  SerialNumLabel : string;
  CO2DecayWeight : R;
  TotalCO2Weight : R;
  CostWeight : R;
  DecayRate : R;
  TimeSeriesInterval : string;
  ConsiderationDays : R
}.

End ApiConfig.

(** ** The scheduler plugin (package greenscheduling) *)

Module Plugin.
Import Framework.

(** [ValidateGreenSchedulingArgs]: the error, or [None] for nil. *)
Definition ValidateGreenSchedulingArgs (args : ApiConfig.GreenSchedulingArgs)
  : option string :=
  if String.eqb (ApiConfig.TokenURL args) ""
     || String.eqb (ApiConfig.ClientID args) ""
     || String.eqb (ApiConfig.ClientSecret args) ""
     || String.eqb (ApiConfig.SICHostname args) ""
     || String.eqb (ApiConfig.SerialNumLabel args) ""
  then Some "missing required arguments"
  else if Rltb (ApiConfig.CO2DecayWeight args) 0
          || Rltb (ApiConfig.TotalCO2Weight args) 0
          || Rltb (ApiConfig.CostWeight args) 0
          || Rltb (ApiConfig.DecayRate args) 0
          || Rltb 1 (ApiConfig.DecayRate args)
  then Some "invalid weight or decay rate"
  else if String.eqb (ApiConfig.TimeSeriesInterval args) ""
          || Rleb (ApiConfig.ConsiderationDays args) 0
  then Some "invalid interval or consideration days"
  else None.

Definition scoreScalingFactor : R := 1000%R.

Record TimeSeriesConfig : Type := mkTimeSeriesConfig {
  DaysToConsider : R;
  SeriesInterval : string
}.

(** The plugin's own copy of the weights. *)
Record SustainabilityWeights : Type := mkSustainabilityWeights {
  CO2DecayWeight : R;
  TotalCO2Weight : R;
  CostWeight : R;
  DecayRate : R
}.

Record Config : Type := mkConfig {
  timeSeriesConfig : TimeSeriesConfig;
  sustainabilityWeights : SustainabilityWeights;
  SerialNumLabel : string
}.

(** [calculateSustainabilityScore] *)
Definition calculateSustainabilityScore (config : Config)
  (usageByEntity : Sicresponse.UsageByEntityResponse)
  (dataPoints : list Decay.EmissionDataPoint) : R :=
  match Sicresponse.Items usageByEntity with
  | [] => 0%R
  | item :: _ =>
      let sData :=
        Profile.NewSustainabilityProfile dataPoints
          (Sicresponse.GetCo2eMetricTon item) (Sicresponse.GetCostUsd item) in
      Profile.CalculateScore sData
        (Weights.NewSustainabilityWeights
           (CO2DecayWeight (sustainabilityWeights config))
           (TotalCO2Weight (sustainabilityWeights config))
           (CostWeight (sustainabilityWeights config))
           (DecayRate (sustainabilityWeights config)))
  end.

(** What [kubeClient.GetNodeLabelValue] answers: the label's value, one of
    the two distinguished misses, or another error. *)
Inductive LabelLookup : Type :=
  | LabelValue (v : string)
  | ErrNodeNotFound
  | ErrLabelNotFound
  | LookupError (e : string).

(** Go's conversion [int64(x)] of a [float64] discards the fraction; the
    result for a value that does not fit in [int64] is left to the
    implementation by the language and is not modelled.  The product that
    [Score] converts is taken here without its rounding, so that the
    integer of the model can differ from the one of the code where
    [float64] rounds the product to an integer; the properties use the
    conversion at 0 only, where it is exact. *)
Definition int64_of_float (x : R) : Z :=
  if Rleb 0 x then Int_part x else (- Int_part (- x))%Z.

(** [buildSicParams] *)
Definition buildSicParams (serialNum : string) : result Sicparams.Params :=
  match Sicparams.NewFilter Sicparams.EntitySerialNum Sicparams.Equals
          (Sicparams.VString serialNum) with
  | Err e => Err ("error creating filter: " +:+ e)
  | Ok filter => Ok (Sicparams.AddFilter Sicparams.NewParams filter)
  end.

Section Scoring.

(** [time.Parse] on the RFC 3339 layout, the label lookup of the cluster
    client, and the two telemetry calls of [fetchSicData]. *)
Variable parseRFC3339 : string -> result GoTime.Time.
Variable GetNodeLabelValue : string -> string -> LabelLookup.
Variable fetchSicData :
  Sicparams.Params ->
  result (Sicresponse.UsageByEntityResponse * Sicresponse.UsageSeriesResponse).

(** [buildEmissionDataPoints]: the first time bucket that does not parse
    ends the loop with an error. *)
Fixpoint buildEmissionDataPoints_loop (items : list Sicresponse.UsageSeriesItem)
  (dataPoints : list Decay.EmissionDataPoint)
  : result (list Decay.EmissionDataPoint) :=
  match items with
  | [] => Ok dataPoints
  | entity :: items' =>
      match Sicresponse.GetTimeBucket parseRFC3339 entity with
      | Err e => Err ("error retrieving time bucket: " +:+ e)
      | Ok timeBucket =>
          buildEmissionDataPoints_loop items'
            (dataPoints
             ++ [Decay.mkEmissionDataPoint
                   (Sicresponse.Series_GetCo2eMetricTon entity) timeBucket])
      end
  end.

Definition buildEmissionDataPoints
  (usageSeries : Sicresponse.UsageSeriesResponse)
  : result (list Decay.EmissionDataPoint) :=
  buildEmissionDataPoints_loop (Sicresponse.SItems usageSeries) [].

(** [Score]: the scaled score of a node and the status. *)
Definition Score (config : Config) (nodeName : string) : Z * Status :=
  match GetNodeLabelValue nodeName (SerialNumLabel config) with
  | ErrNodeNotFound | ErrLabelNotFound => (0, Success)
  | LookupError e => (0, Error e)
  | LabelValue serialNum =>
      match buildSicParams serialNum with
      | Err e => (0, Error e)
      | Ok params =>
          match fetchSicData params with
          | Err e => (0, Error e)
          | Ok (usageByEntity, usageSeries) =>
              match buildEmissionDataPoints usageSeries with
              | Err e => (0, Error e)
              | Ok dataPoints =>
                  let score :=
                    calculateSustainabilityScore config usageByEntity
                      dataPoints in
                  let scaledScore :=
                    int64_of_float (score * scoreScalingFactor) in
                  (scaledScore, Success)
              end
          end
      end
  end.

End Scoring.

(** *** The score normalizer *)


(** First loop of [NormalizeScore]: the largest score, seeded with the
    zero value of [int64]. *)
Definition higherScore (scores : NodeScoreList) : Z :=
  fold_left (fun hs node => if hs <? Framework.Score node then Framework.Score node else hs)
            scores 0.

(** Second loop of [NormalizeScore], from index [i] for [n] more
    iterations: [scores[i].Score = node.Score * MaxNodeScore / hs]. *)
Fixpoint rescale (hs : Z) (i : nat) (n : nat) (scores : NodeScoreList)
  : outcome NodeScoreList :=
  match n with
  | O => Returns scores
  | S n' =>
      match scores !! i with
      | None => Returns scores
      | Some node =>
          match Int64.div (Int64.mul (Framework.Score node) MaxNodeScore) hs with
          | Panics msg => Panics msg
          | Returns q =>
              rescale hs (S i) n' (<[i := mkNodeScore (Name node) q]> scores)
          end
      end
  end.

(** [NormalizeScore]: the slice after the call (its [*framework.Status]
    result is always nil), or the panic. *)
Definition NormalizeScore (scores : NodeScoreList) : outcome NodeScoreList :=
  rescale (higherScore scores) 0 (length scores) scores.

(** What one iteration of the second loop stores for [node] when the
    divisor [hs] is positive. *)
Definition rescaled (hs : Z) (node : NodeScore) : NodeScore :=
  mkNodeScore (Name node)
    (Int64.wrap (Framework.Score node * MaxNodeScore) ÷ hs).

(** The normalizer as the specification words it: every score becomes
    [round(score * MAX / max)], the nearest integer (halves away from
    zero), for a positive [max]. *)
Definition round_div (a b : Z) : Z :=
  Z.sgn a * ((2 * Z.abs a + b) / (2 * b)).

Definition NormalizeScore_spec (scores : NodeScoreList) : NodeScoreList :=
  map (fun node =>
         mkNodeScore (Name node)
           (round_div (Framework.Score node * MaxNodeScore)
              (higherScore scores)))
      scores.

End Plugin.

(** ** The cluster's node labels (package kubeinfo) *)

Module Kubeinfo.

(** What [clientset.CoreV1().Nodes().Get] answers for a node name: the
    node's labels, an error that [k8serrors.IsNotFound] recognizes, or
    another error. *)
Inductive NodeGet : Type :=
  | NodeFound (labels : gmap string string)
  | NodeMissing
  | NodeGetError (e : string).

(** The result of [GetNodeLabels]: the labels, [ErrNodeNotFound], or
    another error. *)
Inductive LabelsResult : Type :=
  | Labels (labels : gmap string string)
  | LabelsNodeNotFound
  | LabelsError (e : string).

Section Cluster.

Variable Get : string -> NodeGet.

Definition GetNodeLabels (nodeName : string) : LabelsResult :=
  match Get nodeName with
  | NodeFound labels => Labels labels
  | NodeMissing => LabelsNodeNotFound
  | NodeGetError e =>
      LabelsError ("failed to get node " +:+ nodeName +:+ ": " +:+ e)
  end.

Definition GetNodeLabelValue (nodeName label : string) : Plugin.LabelLookup :=
  match Get nodeName with
  | NodeMissing => Plugin.ErrNodeNotFound
  | NodeGetError e =>
      Plugin.LookupError ("failed to get node " +:+ nodeName +:+ ": " +:+ e)
  | NodeFound labels =>
      match labels !! label with
      | None => Plugin.ErrLabelNotFound
      | Some value => Plugin.LabelValue value
      end
  end.

End Cluster.

End Kubeinfo.

(** ** The sample plugin of the same name (the scoring stub) *)

Module SamplePlugin.
Import Framework.

(** [Score]: 100 for the node named [k8s-worker1], 0 for any other; the
    status is always nil. *)
Definition Score (nodeName : string) : Z :=
  if String.eqb nodeName "k8s-worker1" then 100 else 0.

(** Second loop of this [NormalizeScore]:
    [scores[i].Score = MaxNodeScore - (node.Score * MaxNodeScore / hs)]. *)
Fixpoint rescale (hs : Z) (i : nat) (n : nat) (scores : NodeScoreList)
  : outcome NodeScoreList :=
  match n with
  | O => Returns scores
  | S n' =>
      match scores !! i with
      | None => Returns scores
      | Some node =>
          match Int64.div (Int64.mul (Framework.Score node) MaxNodeScore) hs
          with
          | Panics msg => Panics msg
          | Returns q =>
              rescale hs (S i) n'
                (<[i := mkNodeScore (Name node)
                          (Int64.wrap (MaxNodeScore - q))]> scores)
          end
      end
  end.

(** [NormalizeScore]; its first loop is that of [Plugin.NormalizeScore]. *)
Definition NormalizeScore (scores : NodeScoreList) : outcome NodeScoreList :=
  rescale (Plugin.higherScore scores) 0 (length scores) scores.

(** The batch the scheduler hands to [NormalizeScore]: each node with the
    score [Score] gave it. *)
Definition scored (nodeNames : list string) : NodeScoreList :=
  map (fun nodeName => mkNodeScore nodeName (Score nodeName)) nodeNames.

End SamplePlugin.

(* ===================================================================== *)
(** * Properties *)
(* ===================================================================== *)

(** ** 64-bit arithmetic *)

Lemma wrap_in_range (z : Z) : Int64.in_range z -> Int64.wrap z = z.
Proof.
  unfold Int64.in_range, Int64.wrap, Int64.min_int, Int64.max_int.
  intros H. rewrite Z.mod_small; lia.
Qed.

Lemma wrap_range (z : Z) : Int64.in_range (Int64.wrap z).
Proof.
  unfold Int64.in_range, Int64.wrap, Int64.min_int, Int64.max_int.
  pose proof (Z.mod_pos_bound (z + 2 ^ 63) (2 ^ 64)). lia.
Qed.

Lemma quot_in_range (a b : Z) :
  Int64.in_range a -> 0 < b -> Int64.in_range (a ÷ b).
Proof.
  unfold Int64.in_range, Int64.min_int, Int64.max_int. intros Ha Hb.
  destruct (Z.le_gt_cases 0 a) as [H0|H0].
  - pose proof (Z.quot_pos a b H0 Hb).
    pose proof (Z.quot_le_upper_bound a b a Hb ltac:(nia)). lia.
  - assert (Hq : - a ÷ b = - (a ÷ b)) by (apply Z.quot_opp_l; lia).
    pose proof (Z.quot_pos (- a) b ltac:(lia) Hb).
    pose proof (Z.quot_le_upper_bound (- a) b (- a) Hb ltac:(nia)). lia.
Qed.

(** ** The score normalizer *)

Section Normalizer.
Import Plugin Framework.

Lemma rescale_pos (hs : Z) (post pre : NodeScoreList) :
  0 < hs ->
  rescale hs (length pre) (length post) (pre ++ post)
  = Returns (pre ++ map (rescaled hs) post).
Proof.
  intros Hhs. revert pre.
  induction post as [|node post IH]; intros pre.
  - reflexivity.
  - cbn [rescale length]. rewrite list_lookup_middle by reflexivity.
    unfold Int64.div. destruct (Z.eqb_spec hs 0) as [->|_]; [lia|].
    unfold Int64.mul.
    rewrite (wrap_in_range (_ ÷ hs))
      by (apply quot_in_range; [apply wrap_range | exact Hhs]).
    replace (<[length pre:=_]> (pre ++ node :: post))
      with ((pre ++ [rescaled hs node]) ++ post).
    + replace (S (length pre)) with (length (pre ++ [rescaled hs node]))
        by (rewrite length_app; simpl; lia).
      rewrite IH. rewrite <- app_assoc. reflexivity.
    + rewrite <- app_assoc. simpl.
      rewrite insert_app_r_alt by lia.
      rewrite Nat.sub_diag. reflexivity.
Qed.

Lemma higherScore_nonpos_aux (scores : NodeScoreList) (hs : Z) :
  Forall (fun node => Score node <= hs) scores ->
  fold_left (fun hs node => if hs <? Score node then Score node else hs)
            scores hs = hs.
Proof.
  induction 1 as [|node scores Hn _ IH]; simpl; [reflexivity|].
  destruct (Z.ltb_spec hs (Score node)); [lia | exact IH].
Qed.

Lemma higherScore_nonpos (scores : NodeScoreList) :
  Forall (fun node => Score node <= 0) scores -> higherScore scores = 0.
Proof. apply higherScore_nonpos_aux. Qed.

(** C1 (the code panics where the claim asks for a defined result): on a
    non-empty batch in which every score is 0, [NormalizeScore] divides by
    the maximum 0 and panics with an integer division by zero. *)
Theorem NormalizeScore_all_zero_panics (scores : NodeScoreList) :
  scores <> [] ->
  Forall (fun node => Score node = 0) scores ->
  NormalizeScore scores = Panics "runtime error: integer divide by zero".
Proof.
  intros Hne Hz. unfold NormalizeScore.
  rewrite higherScore_nonpos
    by (eapply Forall_impl; [exact Hz | simpl; intros; lia]).
  destruct scores as [|node scores]; [congruence|]. reflexivity.
Qed.

Lemma NormalizeScore_all_zero_panics_witness :
  NormalizeScore [mkNodeScore "node-a" 0; mkNodeScore "node-b" 0]
  = Panics "runtime error: integer divide by zero".
Proof.
  apply NormalizeScore_all_zero_panics.
  - discriminate.
  - repeat constructor.
Defined.

(** C6, as stated, fails: for the batch [3; 2] the code stores
    [2 * 100 / 3 = 66], the integer quotient, where rounding
    [200 / 3 = 66.67] to the nearest integer gives 67. *)
Lemma NormalizeScore_round_counterexample :
  let scores := [mkNodeScore "node-a" 3; mkNodeScore "node-b" 2] in
  0 < higherScore scores
  /\ NormalizeScore scores
     = Returns [mkNodeScore "node-a" 100; mkNodeScore "node-b" 66]
  /\ NormalizeScore_spec scores
     = [mkNodeScore "node-a" 100; mkNodeScore "node-b" 67]
  /\ NormalizeScore scores <> Returns (NormalizeScore_spec scores).
Proof. repeat split; discriminate. Qed.

(** C6, amended: for every batch of [int64] scores whose maximum [max] is
    positive, [NormalizeScore] returns normally and has replaced every
    score by the quotient, truncated toward zero, of [score * MaxNodeScore]
    (the product taken in wrapping 64-bit arithmetic) by [max]; names and
    order are unchanged. *)
Theorem NormalizeScore_truncates (scores : NodeScoreList) :
  0 < higherScore scores ->
  NormalizeScore scores
  = Returns
      (map (fun node =>
              mkNodeScore (Name node)
                (Int64.wrap (Score node * MaxNodeScore) ÷ higherScore scores))
           scores).
Proof.
  intros Hmax. unfold NormalizeScore.
  exact (rescale_pos (higherScore scores) scores [] Hmax).
Qed.

Lemma NormalizeScore_truncates_witness :
  NormalizeScore [mkNodeScore "a" 100; mkNodeScore "b" 50; mkNodeScore "c" 0]
  = Returns [mkNodeScore "a" 100; mkNodeScore "b" 50; mkNodeScore "c" 0].
Proof.
  apply (NormalizeScore_truncates
           [mkNodeScore "a" 100; mkNodeScore "b" 50; mkNodeScore "c" 0]).
  reflexivity.
Defined.

End Normalizer.

(** ** Filters and the shared backing arrays *)

Section Filters.
Import Sicparams.

Lemma elems_lookup (h : store) (l : loc) (vs : list string) :
  h !! l = Some vs -> elems h l = vs.
Proof. unfold elems. intros ->. reflexivity. Qed.

Lemma quoteAll_steps (l : loc) (post pre : list string) (h : store) :
  h !! l = Some (map quote pre ++ post) ->
  fold_left (fun h i => assign h l i ("'" +:+ load h l i +:+ "'"))
            (seq (length pre) (length post)) h
  = <[l := map quote pre ++ map quote post]> h.
Proof.
  revert pre h. induction post as [|x post IH]; intros pre h Hl.
  - simpl. rewrite insert_id; [reflexivity | exact Hl].
  - cbn [length seq fold_left].
    assert (Hlen : length (map quote pre) = length pre)
      by apply length_map.
    assert (Hload : load h l (length pre) = x).
    { unfold load. rewrite (elems_lookup _ _ _ Hl).
      rewrite list_lookup_middle by (symmetry; exact Hlen). reflexivity. }
    assert (Hassign : assign h l (length pre) ("'" +:+ x +:+ "'")
                      = <[l := map quote (pre ++ [x]) ++ post]> h).
    { unfold assign. apply map_eq. intros l'.
      destruct (decide (l = l')) as [<-|Hne].
      - rewrite lookup_alter_eq, lookup_insert_eq, Hl. simpl. f_equal.
        rewrite <- Hlen, insert_app_r_alt by lia. rewrite Nat.sub_diag.
        rewrite map_app, <- app_assoc. reflexivity.
      - rewrite lookup_alter_ne, lookup_insert_ne by exact Hne. reflexivity. }
    rewrite Hload, Hassign.
    replace (S (length pre)) with (length (pre ++ [x]))
      by (rewrite length_app; simpl; lia).
    rewrite IH by apply lookup_insert_eq.
    rewrite insert_insert_eq, map_app, <- app_assoc. reflexivity.
Qed.

(** The loop of [formatInValues] rewrites the backing array at [l], and
    nothing else: every member is wrapped in one more pair of quotes. *)
Lemma quoteAll_allocated (l : loc) (h : store) (vs : list string) :
  h !! l = Some vs -> quoteAll l h = <[l := map quote vs]> h.
Proof.
  intros Hl. unfold quoteAll. rewrite (elems_lookup _ _ _ Hl).
  exact (quoteAll_steps l vs [] h Hl).
Qed.

Lemma quoteAll_unallocated (l : loc) (h : store) :
  h !! l = None -> quoteAll l h = h.
Proof. intros Hl. unfold quoteAll, elems. rewrite Hl. reflexivity. Qed.

Lemma GetValue_In_allocated (f : Filter) (h : store) (l : loc)
  (vs : list string) :
  Operator f = In -> Value f = VStrings l -> h !! l = Some vs ->
  GetValue f h
  = (Returns (Key f +:+ " in (" +:+ Join (map quote vs) ", " +:+ ")"),
     <[l := map quote vs]> h).
Proof.
  intros Hop Hv Hl. unfold GetValue, formatInValues.
  rewrite Hop, Hv. simpl. rewrite (quoteAll_allocated _ _ _ Hl).
  rewrite (elems_lookup _ _ (map quote vs)) by apply lookup_insert_eq.
  reflexivity.
Qed.

(** C8: the three textual forms.  An equality filter on [EntitySerialNum]
    with value "ABC123" serializes to [entitySerialNum eq 'ABC123']; a
    [Contains] filter on [EntityMake] with value "Dell" serializes to
    [contains(entityMake, 'Dell')]; an [In] filter on any valid key whose
    value is the slice ["a"; "b"] serializes to [<key> in ('a', 'b')]. *)
Theorem GetValue_three_forms (h : store) (key : FilterKey) (l : loc) :
  isValidKey key = true ->
  h !! l = Some ["a"; "b"] ->
  (exists f, NewFilter EntitySerialNum Equals (VString "ABC123") = Ok f
             /\ GetValue f h = (Returns "entitySerialNum eq 'ABC123'", h))
  /\ (exists f, NewFilter EntityMake Contains (VString "Dell") = Ok f
                /\ GetValue f h = (Returns "contains(entityMake, 'Dell')", h))
  /\ (exists f, NewFilter key In (VStrings l) = Ok f
                /\ (GetValue f h).1 = Returns (key +:+ " in ('a', 'b')")).
Proof.
  intros Hkey Hl. repeat split.
  - eexists. split; reflexivity.
  - eexists. split; reflexivity.
  - exists (mkFilter key In (VStrings l)). split.
    + unfold NewFilter. rewrite Hkey. reflexivity.
    + rewrite (GetValue_In_allocated _ h l ["a"; "b"]) by auto. reflexivity.
Qed.

Lemma GetValue_three_forms_witness :
  exists f, NewFilter LocationCity In (VStrings 1%positive) = Ok f
            /\ (GetValue f {[ 1%positive := ["a"; "b"] ]}).1
               = Returns "locationCity in ('a', 'b')".
Proof.
  refine (proj2 (proj2 (GetValue_three_forms
                          {[ 1%positive := ["a"; "b"] ]} LocationCity
                          1%positive _ _))).
  - reflexivity.
  - reflexivity.
Defined.

(** C4 (the code panics where the claim excludes it): [NewFilter] accepts
    an [In] filter on a valid key with any value, and [GetValue] on the
    filter it built panics in the type assertion whenever that value is not
    a string slice. *)
Theorem GetValue_In_not_slice_panics (key : FilterKey) (v : value)
  (h : store) :
  isValidKey key = true ->
  (forall l, v <> VStrings l) ->
  exists f, NewFilter key In v = Ok f
            /\ GetValue f h
               = (Panics ("interface conversion: interface {} is "
                          +:+ type_name v +:+ ", not []string"), h).
Proof.
  intros Hkey Hv. exists (mkFilter key In v). split.
  - unfold NewFilter. rewrite Hkey. reflexivity.
  - unfold GetValue. simpl. destruct v; try reflexivity.
    exfalso. eapply Hv. reflexivity.
Qed.

Lemma GetValue_In_not_slice_panics_witness :
  exists f, NewFilter EntityID In (VString "abc") = Ok f
            /\ GetValue f ∅
               = (Panics "interface conversion: interface {} is string, not []string",
                  ∅).
Proof.
  apply (GetValue_In_not_slice_panics EntityID (VString "abc") ∅).
  - reflexivity.
  - discriminate.
Defined.

(** *** Lengths of the serialized texts *)

Lemma length_append (a b : string) :
  String.length (a +:+ b) = (String.length a + String.length b)%nat.
Proof. induction a as [|c a IH]; simpl; [reflexivity | now rewrite IH]. Qed.

Lemma length_Join (vs : list string) (sep : string) :
  String.length (Join vs sep)
  = (weight vs + String.length sep * (length vs - 1))%nat.
Proof.
  unfold Join. induction vs as [|v vs IH]; [simpl; lia|].
  destruct vs as [|v' vs].
  - simpl. lia.
  - change (String.concat sep (v :: v' :: vs))
      with (v +:+ sep +:+ String.concat sep (v' :: vs)).
    rewrite !length_append, IH. simpl. lia.
Qed.

Lemma length_quote (v : string) :
  String.length (quote v) = S (S (String.length v)).
Proof. unfold quote. rewrite !length_append. simpl. lia. Qed.

Lemma weight_quote (vs : list string) :
  weight (map quote vs) = (weight vs + 2 * length vs)%nat.
Proof.
  induction vs as [|v vs IH]; [reflexivity|].
  cbn [map weight foldr length]. fold (weight (map quote vs)).
  fold (weight vs). rewrite IH, length_quote. lia.
Qed.

Lemma elems_quoteAll_same (l : loc) (h : store) :
  elems (quoteAll l h) l = map quote (elems h l).
Proof.
  destruct (h !! l) as [vs|] eqn:Hl.
  - rewrite (quoteAll_allocated _ _ _ Hl), (elems_lookup _ _ _ Hl).
    apply elems_lookup, lookup_insert_eq.
  - rewrite (quoteAll_unallocated _ _ Hl). unfold elems. rewrite Hl.
    reflexivity.
Qed.

Lemma elems_quoteAll_other (l l' : loc) (h : store) :
  l <> l' -> elems (quoteAll l h) l' = elems h l'.
Proof.
  intros Hne. destruct (h !! l) as [vs|] eqn:Hl.
  - rewrite (quoteAll_allocated _ _ _ Hl). unfold elems.
    rewrite lookup_insert_ne by exact Hne. reflexivity.
  - rewrite (quoteAll_unallocated _ _ Hl). reflexivity.
Qed.

Lemma below_refl (h : store) : below h h.
Proof. intros l. split; [reflexivity | lia]. Qed.

Lemma below_trans (h1 h2 h3 : store) :
  below h1 h2 -> below h2 h3 -> below h1 h3.
Proof.
  intros H12 H23 l. destruct (H12 l), (H23 l). split; [congruence | lia].
Qed.

Lemma below_quoteAll (l : loc) (h : store) : below h (quoteAll l h).
Proof.
  intros l'. destruct (decide (l = l')) as [<-|Hne].
  - rewrite elems_quoteAll_same, length_map, weight_quote. split; lia.
  - rewrite elems_quoteAll_other by exact Hne. split; [reflexivity | lia].
Qed.

(** The store after [GetValue]: the one before, or the one before with
    the members of the filter's slice quoted. *)
Lemma GetValue_store (f : Filter) (h : store) :
  (GetValue f h).2 = h
  \/ exists l, Operator f = In /\ Value f = VStrings l
               /\ (GetValue f h).2 = quoteAll l h.
Proof.
  unfold GetValue, formatInValues.
  destruct (String.eqb_spec (Operator f) In) as [Hop|Hop].
  - destruct (Value f) as [s|l|n|] eqn:Hv; simpl; auto.
    right. exists l. auto.
  - destruct (String.eqb (Operator f) Contains); simpl; auto.
Qed.

Lemma below_GetValue (f : Filter) (h : store) : below h (GetValue f h).2.
Proof.
  destruct (GetValue_store f h) as [->|(l & _ & _ & ->)].
  - apply below_refl.
  - apply below_quoteAll.
Qed.

Lemma length_fmt_v_mono (v : value) (h h' : store) :
  below h h' ->
  (String.length (fmt_v h v) <= String.length (fmt_v h' v))%nat.
Proof.
  intros Hb. destruct v as [s|l|n|]; simpl; try lia.
  destruct (Hb l) as [Hlen Hw].
  rewrite !length_append, !length_Join, Hlen. simpl. lia.
Qed.

(** A later store never shortens the text of a filter. *)
Lemma length_GetValue_mono (f : Filter) (h h' : store) (s s' : string) :
  below h h' ->
  (GetValue f h).1 = Returns s -> (GetValue f h').1 = Returns s' ->
  (String.length s <= String.length s')%nat.
Proof.
  intros Hb. unfold GetValue, formatInValues.
  destruct (String.eqb (Operator f) In).
  - destruct (Value f) as [?|l|?|]; simpl; try discriminate.
    intros [= <-] [= <-]. rewrite !elems_quoteAll_same.
    destruct (Hb l) as [Hlen Hw].
    rewrite !length_append, !length_Join, !weight_quote, !length_map, Hlen.
    simpl. lia.
  - pose proof (length_fmt_v_mono (Value f) h h' Hb).
    destruct (String.eqb (Operator f) Contains); simpl;
      intros [= <-] [= <-]; rewrite !length_append; simpl;
      rewrite ?length_append; simpl; lia.
Qed.

(** An [In] filter on a non-empty slice gets a strictly longer text from
    any store that follows its own call. *)
Lemma length_GetValue_In_grows (f : Filter) (l : loc) (h h' : store)
  (s s' : string) :
  Operator f = In -> Value f = VStrings l -> elems h l <> [] ->
  below (GetValue f h).2 h' ->
  (GetValue f h).1 = Returns s -> (GetValue f h').1 = Returns s' ->
  (String.length s < String.length s')%nat.
Proof.
  intros Hop Hv Hne. unfold GetValue, formatInValues.
  rewrite Hop, Hv. simpl. intros Hb [= <-] [= <-].
  destruct (Hb l) as [Hlen Hw]. rewrite !elems_quoteAll_same in *.
  rewrite !length_append, !length_Join, !weight_quote, !length_map in *.
  destruct (elems h l) as [|v vs]; [congruence|]. simpl in *. lia.
Qed.

(** *** Serializing a [Params] *)

Lemma weight_app (xs ys : list string) :
  weight (xs ++ ys) = (weight xs + weight ys)%nat.
Proof.
  induction xs as [|x xs IH]; [reflexivity|].
  cbn [app weight foldr]. fold (weight (xs ++ ys)). fold (weight xs).
  rewrite IH. lia.
Qed.

Lemma Values_Add_same (key val : string) (q : Values) :
  default [] (Values_Add key val q !! key) = default [] (q !! key) ++ [val].
Proof. unfold Values_Add. rewrite lookup_insert_eq. reflexivity. Qed.

Lemma Values_Add_other (key key' val : string) (q : Values) :
  key <> key' -> Values_Add key val q !! key' = q !! key'.
Proof. intros Hne. unfold Values_Add. apply lookup_insert_ne, Hne. Qed.

Lemma addFilters_run (fs : list Filter) (q q' : Values) (h h' : store) :
  addFilters fs q h = (Returns q', h') ->
  exists outs,
    default [] (q' !! "filter") = default [] (q !! "filter") ++ outs
    /\ below h h'
    /\ Forall2 (emitted h h') fs outs.
Proof.
  revert q h. induction fs as [|f fs IH]; intros q h; cbn [addFilters].
  - intros [= <- <-]. exists []. rewrite app_nil_r.
    split; [reflexivity|]. split; [apply below_refl | constructor].
  - destruct (GetValue f h) as [[s|msg] h1] eqn:Hf; [|discriminate].
    intros Hrun. destruct (IH _ _ Hrun) as (outs & Hq & Hb & Hall).
    assert (Hb1 : below h h1).
    { replace h1 with (GetValue f h).2 by (rewrite Hf; reflexivity).
      apply below_GetValue. }
    exists (s :: outs). split; [|split].
    + rewrite Hq, Values_Add_same, <- app_assoc. reflexivity.
    + eapply below_trans; eassumption.
    + constructor.
      * exists h. rewrite Hf. simpl. split; [apply below_refl|]. auto.
      * eapply Forall2_impl; [exact Hall|].
        intros f' s' (g & Hg1 & Hg2 & Hg3). exists g.
        split; [eapply below_trans; eassumption | auto].
Qed.

Lemma addSorts_filter (ss : list Sort) (q : Values) :
  addSorts ss q !! "filter" = q !! "filter".
Proof.
  unfold addSorts. revert q. induction ss as [|s ss IH]; intros q.
  - reflexivity.
  - cbn [fold_left]. rewrite IH. apply Values_Add_other. discriminate.
Qed.

Lemma ToQueryParams_filter (p : Params) (h h' : store) (q : Values) :
  ToQueryParams p h = (Returns q, h') ->
  exists q0, addFilters (filters p) ∅ h = (Returns q0, h')
             /\ q !! "filter" = q0 !! "filter".
Proof.
  unfold ToQueryParams.
  destruct (addFilters (filters p) ∅ h) as [[q0|msg] h1]; [|discriminate].
  intros [= <- <-]. exists q0. split; [reflexivity|].
  destruct (limit p); destruct (offset p);
    rewrite ?Values_Add_other by discriminate; apply addSorts_filter.
Qed.

Lemma weight_Forall2_le {A} (P1 P2 : A -> string -> Prop)
  (fs : list A) (outs1 outs2 : list string) :
  (forall f s s', P1 f s -> P2 f s' ->
                  (String.length s <= String.length s')%nat) ->
  Forall2 P1 fs outs1 -> Forall2 P2 fs outs2 ->
  (weight outs1 <= weight outs2)%nat.
Proof.
  intros Hle H1. revert outs2.
  induction H1 as [|f s fs outs1 Hf _ IH]; intros outs2 H2;
    inversion H2 as [|? s' ? outs2' Hf' H2']; subst; [reflexivity|].
  specialize (IH _ H2'). specialize (Hle _ _ _ Hf Hf').
  cbn [weight foldr]. fold (weight outs1). fold (weight outs2'). lia.
Qed.

Lemma weight_Forall2_lt {A} (P1 P2 : A -> string -> Prop) (f0 : A)
  (fs : list A) (outs1 outs2 : list string) :
  (forall f s s', P1 f s -> P2 f s' ->
                  (String.length s <= String.length s')%nat) ->
  (forall s s', P1 f0 s -> P2 f0 s' ->
                (String.length s < String.length s')%nat) ->
  f0 ∈ fs ->
  Forall2 P1 fs outs1 -> Forall2 P2 fs outs2 ->
  (weight outs1 < weight outs2)%nat.
Proof.
  intros Hle Hlt Hin H1. revert outs2.
  induction H1 as [|f s fs outs1 Hf H1 IH]; intros outs2 H2;
    inversion H2 as [|? s' ? outs2' Hf' H2']; subst.
  - inversion Hin.
  - cbn [weight foldr]. fold (weight outs1). fold (weight outs2').
    apply elem_of_cons in Hin as [<-|Hin].
    + pose proof (Hlt _ _ Hf Hf').
      pose proof (weight_Forall2_le P1 P2 fs outs1 outs2' Hle H1 H2'). lia.
    + specialize (IH Hin _ H2'). specialize (Hle _ _ _ Hf Hf'). lia.
Qed.

(** Two serializations of one [Params] holding an [In] filter and an
    equality filter: the first query value changes, the second does not. *)
Example ToQueryParams_twice :
  let h : store := {[ 1%positive := ["a"; "b"] ]} in
  let p := AddFilter (AddFilter NewParams
                        (mkFilter EntityMake In (VStrings 1%positive)))
             (mkFilter EntitySerialNum Equals (VString "ABC123")) in
  exists q1 h1 q2 h2,
    ToQueryParams p h = (Returns q1, h1)
    /\ ToQueryParams p h1 = (Returns q2, h2)
    /\ q1 !! "filter"
       = Some ["entityMake in ('a', 'b')"; "entitySerialNum eq 'ABC123'"]
    /\ q2 !! "filter"
       = Some ["entityMake in (''a'', ''b'')"; "entitySerialNum eq 'ABC123'"].
Proof. do 4 eexists. repeat split; vm_compute; reflexivity. Qed.

(** C10, as stated, fails: an [In] filter over an empty string slice
    serializes to the same text on successive calls. *)
Lemma GetValue_In_empty_counterexample :
  let h : store := {[ 1%positive := [] ]} in
  exists f, NewFilter EntityID In (VStrings 1%positive) = Ok f
            /\ (GetValue f h).1 = Returns "entityId in ()"
            /\ (GetValue f (GetValue f h).2).1 = (GetValue f h).1.
Proof. eexists. repeat split. Qed.

(** C10, amended: for every [In] filter whose value is a string slice,
    [GetValue] rewrites the backing array of the slice in place, wrapping
    every member in one more pair of single quotes, and returns the key
    followed by the quoted members; a second call returns the members
    quoted twice.  When the slice is not empty the two texts differ, and
    two successive serializations of a [Params] holding the filter yield
    different values under the query key [filter]. *)
Theorem GetValue_In_requotes (f : Filter) (h : store) (l : loc)
  (vs : list string) :
  Operator f = In -> Value f = VStrings l -> h !! l = Some vs ->
  GetValue f h
  = (Returns (Key f +:+ " in (" +:+ Join (map quote vs) ", " +:+ ")"),
     <[l := map quote vs]> h)
  /\ (GetValue f (GetValue f h).2).1
     = Returns (Key f +:+ " in (" +:+ Join (map quote (map quote vs)) ", "
                +:+ ")")
  /\ (vs <> [] ->
      (GetValue f (GetValue f h).2).1 <> (GetValue f h).1
      /\ forall p q1 h1 q2 h2,
           f ∈ filters p ->
           ToQueryParams p h = (Returns q1, h1) ->
           ToQueryParams p h1 = (Returns q2, h2) ->
           q1 !! "filter" <> q2 !! "filter").
Proof.
  intros Hop Hv Hl.
  pose proof (GetValue_In_allocated f h l vs Hop Hv Hl) as H1.
  pose proof (GetValue_In_allocated f (<[l := map quote vs]> h) l
                (map quote vs) Hop Hv (lookup_insert_eq _ _ _)) as H2.
  split; [exact H1|]. rewrite H1. cbn [fst snd]. rewrite H2. cbn [fst].
  split; [reflexivity|]. intros Hne. split.
  - intros [= Heq]. apply (f_equal String.length) in Heq.
    rewrite !length_append, !length_Join, !weight_quote, !length_map in Heq.
    destruct vs as [|v vs]; [congruence|]. simpl in Heq. lia.
  - intros p q1 h1 q2 h2 Hin Hrun1 Hrun2.
    destruct (ToQueryParams_filter _ _ _ _ Hrun1) as (q1' & Ha1 & ->).
    destruct (ToQueryParams_filter _ _ _ _ Hrun2) as (q2' & Ha2 & ->).
    destruct (addFilters_run _ _ _ _ _ Ha1) as (outs1 & Hq1 & _ & Hall1).
    destruct (addFilters_run _ _ _ _ _ Ha2) as (outs2 & Hq2 & _ & Hall2).
    rewrite lookup_empty in Hq1, Hq2. simpl in Hq1, Hq2.
    intros Heq. rewrite Heq, Hq2 in Hq1.
    assert (Hlt : (weight outs1 < weight outs2)%nat); [|rewrite Hq1 in Hlt; lia].
    apply (weight_Forall2_lt (emitted h h1) (emitted h1 h2) f (filters p));
      auto.
    + intros f' s s' (g & _ & Hg2 & Hs) (g' & Hg' & _ & Hs').
      apply (length_GetValue_mono f' g g'); auto.
      eapply below_trans; [apply below_GetValue|].
      eapply below_trans; eassumption.
    + intros s s' (g & Hg1 & Hg2 & Hs) (g' & Hg' & _ & Hs').
      apply (length_GetValue_In_grows f l g g'); auto.
      * destruct (Hg1 l) as [Hlen _].
        rewrite (elems_lookup _ _ _ Hl) in Hlen.
        intros Hnil. rewrite Hnil in Hlen. destruct vs; [congruence|].
        discriminate.
      * eapply below_trans; eassumption.
Qed.

Lemma GetValue_In_requotes_witness :
  let f := mkFilter EntityMake In (VStrings 1%positive) in
  let h : store := {[ 1%positive := ["a"; "b"] ]} in
  GetValue f h
  = (Returns "entityMake in ('a', 'b')",
     <[1%positive := ["'a'"; "'b'"]]> h)
  /\ (GetValue f (GetValue f h).2).1
     = Returns "entityMake in (''a'', ''b'')"
  /\ (["a"; "b"] <> [] ->
      (GetValue f (GetValue f h).2).1 <> (GetValue f h).1
      /\ forall p q1 h1 q2 h2,
           f ∈ filters p ->
           ToQueryParams p h = (Returns q1, h1) ->
           ToQueryParams p h1 = (Returns q2, h2) ->
           q1 !! "filter" <> q2 !! "filter").
Proof.
  apply (GetValue_In_requotes
           (mkFilter EntityMake In (VStrings 1%positive))
           {[ 1%positive := ["a"; "b"] ]} 1%positive ["a"; "b"]).
  - reflexivity.
  - reflexivity.
  - reflexivity.
Defined.

End Filters.

(** ** The token manager *)

Section TokenManagerFacts.
Import GoTime Sicclient.

Variable clock : nat -> Time.
Variable endpoint : nat -> Request -> RoundTrip.
Variable QueryEscape : string -> string.
Variable urlError : string -> option string.
Variable decodeTokenResponse : string -> result TokenResponse.

Local Abbreviation GenerateToken :=
  (Sicclient.GenerateToken clock endpoint QueryEscape urlError
     decodeTokenResponse).
Local Abbreviation GetToken :=
  (Sicclient.GetToken clock endpoint QueryEscape urlError
     decodeTokenResponse).
Local Abbreviation tokenRequest := (Sicclient.tokenRequest QueryEscape).

(** A failed token exchange leaves the manager as it was, and sends at most
    the one request. *)
Lemma GenerateToken_error_frame (tm tm' : TokenManager) (w w' : World)
  (err : string) :
  GenerateToken tm w = (Some err, tm', w') ->
  tm' = tm
  /\ clockReads w' = clockReads w
  /\ (sent w' = sent w \/ sent w' = sent w ++ [tokenRequest tm]).
Proof.
  unfold Sicclient.GenerateToken, NewRequest, Do.
  destruct (urlError (URL (config tm))) as [e|].
  - intros [= _ <- <-]. auto.
  - cbn [Method Target Body sent clockReads].
    fold (tokenRequest tm).
    destruct (endpoint (length (sent w)) (tokenRequest tm))
      as [e|code status body].
    + intros [= _ <- <-]. simpl. auto.
    + destruct (negb (code =? StatusOK)).
      * intros [= _ <- <-]. simpl. auto.
      * destruct (decodeTokenResponse body) as [tokenResp|e].
        -- discriminate.
        -- intros [= _ <- <-]. simpl. auto.
Qed.

(** C5: [GetToken] reads the clock once and refreshes exactly when the
    stored expiry lies before that reading.  With an expiry that is not in
    the past it returns the cached token, the manager is unchanged and no
    request is sent.  With an expiry in the past (the zero expiry of a new
    manager included) it runs [GenerateToken] before it returns: on success
    the token returned is the one just stored; on any failure the error is
    returned and the manager is unchanged, its expiry still in the past.
    A response with a status other than 200 and a response whose body does
    not decode are such failures; a 200 response that decodes stores the
    new token with the expiry [now + expires_in] seconds. *)
Theorem GetToken_refreshes_iff_expired (tm : TokenManager) (w : World) :
  let now := clock (clockReads w) in
  (* expiry not in the past: cached token, no network call *)
  (now <= Expiry (tokenInfo tm) ->
   GetToken tm w = (Ok (Token (tokenInfo tm)), tm, tick w))
  (* expiry in the past: refresh first *)
  /\ (Expiry (tokenInfo tm) < now ->
      GetToken tm w
      = match GenerateToken tm (tick w) with
        | (Some err, tm', w') => (Err err, tm', w')
        | (None, tm', w') => (Ok (Token (tokenInfo tm')), tm', w')
        end)
  (* the zero-value initial state is expired *)
  /\ (forall c, Expiry (tokenInfo (NewTokenManager c)) = zeroTime)
  (* requests are sent only when the expiry is in the past *)
  /\ (forall r tm' w', GetToken tm w = (r, tm', w') ->
      sent w' <> sent w -> Expiry (tokenInfo tm) < now)
  (* a failed refresh: error returned, state unchanged and still expired *)
  /\ (forall err tm' w', GetToken tm w = (Err err, tm', w') ->
      tm' = tm /\ Expiry (tokenInfo tm') < now)
  (* non-200 responses and decode failures are failed refreshes *)
  /\ (forall code status body,
      Expiry (tokenInfo tm) < now ->
      urlError (URL (config tm)) = None ->
      endpoint (length (sent w)) (tokenRequest tm)
      = Response code status body ->
      let w' := mkWorld (S (clockReads w)) (sent w ++ [tokenRequest tm]) in
      (code <> StatusOK ->
       GetToken tm w = (Err ("failed to generate token: " +:+ status), tm, w'))
      /\ (forall e, code = StatusOK -> decodeTokenResponse body = Err e ->
          GetToken tm w = (Err e, tm, w'))
      /\ (forall tokenResp,
          code = StatusOK -> decodeTokenResponse body = Ok tokenResp ->
          GetToken tm w
          = (Ok (AccessToken tokenResp),
             mkTokenManager (config tm)
               (mkTokenInfo (AccessToken tokenResp)
                  (clock (S (clockReads w))
                   + Int64.wrap (ExpiresIn tokenResp * Second))),
             mkWorld (S (S (clockReads w))) (sent w ++ [tokenRequest tm])))).
Proof.
  intros now.
  assert (Hfresh : now <= Expiry (tokenInfo tm) ->
                   GetToken tm w = (Ok (Token (tokenInfo tm)), tm, tick w)).
  { intros Hle. unfold Sicclient.GetToken, Now, After. fold now.
    destruct (Z.ltb_spec (Expiry (tokenInfo tm)) now); [lia | reflexivity]. }
  assert (Hstale : Expiry (tokenInfo tm) < now ->
            GetToken tm w
            = match GenerateToken tm (tick w) with
              | (Some err, tm', w') => (Err err, tm', w')
              | (None, tm', w') => (Ok (Token (tokenInfo tm')), tm', w')
              end).
  { intros Hlt. unfold Sicclient.GetToken, Now, After, RefreshToken.
    fold now. fold (tick w).
    destruct (Z.ltb_spec (Expiry (tokenInfo tm)) now); [|lia].
    destruct (GenerateToken tm (tick w)) as [[[err|] tm'] w']; reflexivity. }
  split; [exact Hfresh|]. split; [exact Hstale|]. split; [reflexivity|].
  split; [|split].
  - intros r tm' w' Hrun Hsent.
    destruct (Z.lt_ge_cases (Expiry (tokenInfo tm)) now) as [Hlt|Hge];
      [exact Hlt|].
    rewrite Hfresh in Hrun by lia. injection Hrun as _ _ <-.
    exfalso. apply Hsent. reflexivity.
  - intros err tm' w' Hrun.
    destruct (Z.lt_ge_cases (Expiry (tokenInfo tm)) now) as [Hlt|Hge].
    + rewrite Hstale in Hrun by exact Hlt.
      destruct (GenerateToken tm (tick w)) as [[[e|] tm1] w1] eqn:Hgen;
        [|discriminate].
      injection Hrun as _ <- _.
      destruct (GenerateToken_error_frame _ _ _ _ _ Hgen) as [-> _].
      split; [reflexivity | exact Hlt].
    + rewrite Hfresh in Hrun by lia. discriminate.
  - intros code status body Hlt Hurl Hresp w'.
    rewrite (Hstale Hlt).
    unfold Sicclient.GenerateToken, NewRequest, Do, Now, Add, Int64.mul.
    rewrite Hurl. cbn [Method Target Body sent clockReads tick].
    fold (tokenRequest tm). rewrite Hresp.
    split; [|split].
    + intros Hcode. destruct (Z.eqb_spec code StatusOK); [contradiction|].
      reflexivity.
    + intros e -> ->. reflexivity.
    + intros tokenResp -> ->. reflexivity.
Qed.

End TokenManagerFacts.

(** ** The decay factor and the cost term on binary64 values *)

Section Binary64Facts.
Import PrimFloat.
Local Open Scope float_scope.

(** Where the binary64 decay departs from the real-valued one.  When
    [math.Exp] underflows to 0 the decay is exactly 0, and when it returns
    1 (the product of rate and hours is zero) the decay is exactly 0.5.
    The rounded quotient is not monotone: of the two adjacent values
    0.40000000000003483 and 0.40000000000003488 of the exponential, the
    larger one (the smaller time difference) has the smaller decay. *)
Lemma decay_binary64 :
  Float64.decay 0 = 0 /\ Float64.decay 1 = 0.5
  /\ (let e := 0x1.9999999999c0dp-2 in
      let e' := 0x1.9999999999c0ep-2 in
      (e <? e') = true /\ (Float64.decay e' <? Float64.decay e) = true).
Proof. repeat split; vm_compute; reflexivity. Qed.

(** Where the binary64 cost term departs from the real-valued one: for the
    weight 1 the total costs 1e-17 and 1e-16 (the binary64 values nearest
    to them) both give exactly 1, since [1 + totalCost] rounds to 1. *)
Lemma costWeightedScore_binary64 :
  let cheap := 0x1.70ef54646d497p-57 in
  let dear := 0x1.cd2b297d889bcp-54 in
  (0 <? cheap) = true /\ (cheap <? dear) = true
  /\ Float64.costWeightedScore 1 cheap = 1
  /\ Float64.costWeightedScore 1 dear = 1.
Proof. repeat split; vm_compute; reflexivity. Qed.

End Binary64Facts.

(** ** The decay factor *)

Section DecayFacts.
Import Decay.
Local Open Scope R_scope.

(** The logistic curve [x / (1 + x)] on positive [x]. *)
Lemma logistic_pos (x : R) : 0 < x -> 0 < x / (1 + x).
Proof. intros Hx. apply Rdiv_lt_0_compat; lra. Qed.

Lemma logistic_le_half (x : R) : 0 < x -> x <= 1 -> x / (1 + x) <= 1 / 2.
Proof.
  intros Hx Hx1.
  assert (Heq : x / (1 + x) = 1 / 2 - (1 - x) * / (2 * (1 + x)))
    by (field; lra).
  assert (Hinv : 0 < / (2 * (1 + x))) by (apply Rinv_0_lt_compat; lra).
  assert (0 <= (1 - x) * / (2 * (1 + x))) by (apply Rmult_le_pos; lra).
  lra.
Qed.

Lemma exp_le_1 (x : R) : x <= 0 -> exp x <= 1.
Proof.
  intros [Hlt | ->].
  - left. rewrite <- exp_0. apply exp_increasing, Hlt.
  - rewrite exp_0. lra.
Qed.

Lemma decayAt_nonneg (r dh : R) :
  0 <= dh -> decayAt r dh = exp (- r * dh) / (1 + exp (- r * dh)).
Proof.
  intros H. unfold decayAt, Rleb.
  destruct (Rle_dec 0 dh); [reflexivity | lra].
Qed.

Lemma decayAt_zero (r : R) : decayAt r 0 = 1 / 2.
Proof.
  rewrite decayAt_nonneg by lra.
  replace (- r * 0) with 0 by ring. rewrite exp_0. lra.
Qed.

(** C3, as stated, fails at the decay rate 0, which the claim admits: the
    factor is then 0.5 for every non-negative time difference, so it does
    not decrease between 0 and 1 hour. *)
Lemma decayAt_rate_zero_counterexample :
  0 <= 0 /\ 0 <= 0 < 1
  /\ decayAt 0 0 = 1 / 2 /\ decayAt 0 1 = 1 / 2
  /\ ~ (decayAt 0 1 < decayAt 0 0).
Proof.
  assert (H0 : decayAt 0 0 = 1 / 2) by apply decayAt_zero.
  assert (H1 : decayAt 0 1 = 1 / 2).
  { rewrite decayAt_nonneg by lra.
    replace (- 0 * 1) with 0 by ring. rewrite exp_0. lra. }
  rewrite H0, H1. repeat split; lra.
Qed.

(** C3, amended: [CalculateDecayFactor] is [decayAt] of the decay rate and
    of the hours between the latest time and the point.  For every decay
    rate [r >= 0] and time difference [dh >= 0] the factor lies in
    [0, 0.5] and is exactly 0.5 at [dh = 0], so that it never exceeds its
    value at [dh = 0]; for [r = 0] it is 0.5 at every [dh >= 0]; for every
    [dh < 0] it is exactly 1.  The interval is closed at 0 and no order
    between the factors of two positive time differences is stated, since
    the binary64 factor is 0 once [math.Exp] underflows and is not
    monotone ([decay_binary64]). *)
Theorem decayAt_properties (r : R) :
  (forall e params,
     CalculateDecayFactor e params
     = decayAt (DecayRate params)
         (GoTime.Hours (GoTime.Sub (LatestTime params) (Time e))))
  /\ (forall dh, 0 <= r -> 0 <= dh -> 0 <= decayAt r dh <= 1 / 2)
  /\ decayAt r 0 = 1 / 2
  /\ (forall dh, 0 <= r -> 0 <= dh -> decayAt r dh <= decayAt r 0)
  /\ (forall dh, r = 0 -> 0 <= dh -> decayAt r dh = 1 / 2)
  /\ (forall dh, dh < 0 -> decayAt r dh = 1).
Proof.
  assert (Hrange : forall dh, 0 <= r -> 0 <= dh -> 0 <= decayAt r dh <= 1 / 2).
  { intros dh Hr Hdh. rewrite decayAt_nonneg by exact Hdh.
    pose proof (exp_pos (- r * dh)) as Hpos.
    assert (Hle : exp (- r * dh) <= 1) by (apply exp_le_1; nra).
    split; [left; apply logistic_pos, Hpos
           | apply logistic_le_half; assumption]. }
  split; [reflexivity|]. split; [exact Hrange|].
  split; [apply decayAt_zero|]. split; [|split].
  - intros dh Hr Hdh. rewrite decayAt_zero. apply Hrange; assumption.
  - intros dh -> Hdh. rewrite decayAt_nonneg by assumption.
    replace (- 0 * dh) with 0 by ring. rewrite exp_0. lra.
  - intros dh Hdh. unfold decayAt, Rleb.
    destruct (Rle_dec 0 dh); [lra | reflexivity].
Qed.

Lemma decayAt_properties_witness :
  0 <= decayAt (1 / 10) 24 <= 1 / 2
  /\ decayAt (1 / 10) 24 <= decayAt (1 / 10) 0
  /\ decayAt 0 24 = 1 / 2
  /\ decayAt (1 / 10) (- 1) = 1.
Proof.
  destruct (decayAt_properties (1 / 10)) as (_ & Hrange & _ & Hmax & _ & Hneg).
  destruct (decayAt_properties 0) as (_ & _ & _ & _ & Hzero & _).
  split; [apply Hrange; lra|]. split; [apply Hmax; lra|].
  split; [apply Hzero; [reflexivity | lra] | apply Hneg; lra].
Defined.

End DecayFacts.

(** ** The score of a profile *)

Section ProfileFacts.
Import Decay Weights Profile.
Local Open Scope R_scope.

(** C7, as stated, fails at the cost weight 0: the cost term is 0 whatever
    the total cost, so it does not decrease between the costs 0 and 1. *)
Lemma cost_term_zero_weight_counterexample :
  let cheap := mkSustainabilityProfile [] 0 0 in
  let dear := mkSustainabilityProfile [] 0 1 in
  0 <= TotalCost cheap < TotalCost dear
  /\ ~ (calculateCostWeightedScore dear 0 < calculateCostWeightedScore cheap 0).
Proof.
  unfold calculateCostWeightedScore. simpl. split; [lra|].
  unfold Rdiv. rewrite !Rmult_0_l. lra.
Qed.

(** C7, amended: the cost term is [costWeight / (1 + totalCost)].  For
    every [costWeight >= 0] and [totalCost >= 0] it does not increase when
    the total cost grows, it lies between 0 and [costWeight], and it is
    [costWeight] at the total cost 0.  The decrease is not stated as
    strict: in binary64 two different total costs can give the same term
    also for a positive weight ([costWeightedScore_binary64]). *)
Theorem cost_term_nonincreasing (costWeight : R)
  (data1 data2 : SustainabilityProfile) :
  0 <= costWeight ->
  0 <= TotalCost data1 -> TotalCost data1 <= TotalCost data2 ->
  calculateCostWeightedScore data1 costWeight
  = costWeight / (1 + TotalCost data1)
  /\ 0 <= calculateCostWeightedScore data2 costWeight
       <= calculateCostWeightedScore data1 costWeight
  /\ calculateCostWeightedScore data1 costWeight <= costWeight
  /\ (TotalCost data1 = 0 ->
      calculateCostWeightedScore data1 costWeight = costWeight).
Proof.
  intros Hc H1 H12. unfold calculateCostWeightedScore.
  set (t1 := TotalCost data1) in *. set (t2 := TotalCost data2) in *.
  assert (Hinv : / (1 + t2) <= / (1 + t1))
    by (apply Rinv_le_contravar; lra).
  assert (Hp2 : 0 < / (1 + t2)) by (apply Rinv_0_lt_compat; lra).
  assert (Hb1 : / (1 + t1) <= 1).
  { rewrite <- Rinv_1. apply Rinv_le_contravar; lra. }
  unfold Rdiv. split; [reflexivity|]. split; [split; nra|].
  split; [nra|]. intros ->. rewrite Rplus_0_r, Rinv_1. ring.
Qed.

Lemma cost_term_nonincreasing_witness :
  0 <= calculateCostWeightedScore (mkSustainabilityProfile [] 10 5) 1
    <= calculateCostWeightedScore (mkSustainabilityProfile [] 10 0) 1
  /\ calculateCostWeightedScore (mkSustainabilityProfile [] 10 0) 1 = 1.
Proof.
  destruct (cost_term_nonincreasing 1
              (mkSustainabilityProfile [] 10 0)
              (mkSustainabilityProfile [] 10 5))
    as (_ & Horder & _ & Hzero); simpl; try lra.
  split; [exact Horder | apply Hzero; reflexivity].
Defined.

(** The first loop of [calculateCO2WeightedScore] computes a maximum. *)
Lemma fold_max_shift (a seed : GoTime.Time) (l : list EmissionDataPoint) :
  fold_right (fun e latest => Z.max (Time e) latest) (Z.max a seed) l
  = Z.max a (fold_right (fun e latest => Z.max (Time e) latest) seed l).
Proof. induction l as [|e l IH]; simpl; [reflexivity | rewrite IH; lia]. Qed.

Lemma latestTimeFrom_max (l : list EmissionDataPoint) (seed : GoTime.Time) :
  latestTimeFrom seed l
  = fold_right (fun e latest => Z.max (Time e) latest) seed l.
Proof.
  unfold latestTimeFrom. revert seed.
  induction l as [|e l IH]; intros seed; simpl; [reflexivity|].
  rewrite IH. unfold GoTime.After.
  destruct (Z.ltb_spec seed (Time e)).
  - rewrite <- fold_max_shift. f_equal. lia.
  - rewrite <- fold_max_shift. f_equal. lia.
Qed.

Lemma latestTimeFrom_first (first : EmissionDataPoint)
  (others : list EmissionDataPoint) :
  latestTimeFrom (Time first) (first :: others) = referenceTime first others.
Proof.
  rewrite latestTimeFrom_max. unfold referenceTime. simpl.
  assert (Hge : forall l seed,
            (seed <= fold_right (fun e latest => Z.max (Time e) latest)
                       seed l)%Z).
  { induction l as [|e l IH]; intros seed; simpl; [lia|].
    specialize (IH seed). lia. }
  specialize (Hge others (Time first)). lia.
Qed.

(** The reference time is the timestamp of a point, and no point is
    later. *)
Lemma referenceTime_is_max (first : EmissionDataPoint)
  (others : list EmissionDataPoint) :
  Forall (fun e => (Time e <= referenceTime first others)%Z) (first :: others)
  /\ Exists (fun e => Time e = referenceTime first others) (first :: others).
Proof.
  unfold referenceTime. induction others as [|e others [IHall IHex]]; simpl.
  - split; [repeat constructor; lia | left; reflexivity].
  - set (m := fold_right (fun e latest => Z.max (Time e) latest)
                (Time first) others) in *.
    split.
    + inversion IHall as [|? ? Hfirst Hothers]; subst.
      constructor; [lia|]. constructor; [lia|].
      eapply Forall_impl; [exact Hothers|]. simpl. intros; lia.
    + destruct (Z.max_spec (Time e) m) as [[_ ->]|[_ ->]].
      * inversion IHex as [? ? Hfirst|? ? Hothers]; subst.
        -- left. exact Hfirst.
        -- right. right. exact Hothers.
      * right. left. reflexivity.
Qed.

(** The second loop of [calculateCO2WeightedScore] computes a sum. *)
Lemma fold_left_sum {A} (f : A -> R) (l : list A) (a : R) :
  fold_left (fun acc e => acc + f e) l a
  = a + fold_right (fun e sum => f e + sum) 0 l.
Proof.
  revert a. induction l as [|e l IH]; intros a; simpl; [lra|].
  rewrite IH. lra.
Qed.

Lemma CalculateScore_score_spec (data : SustainabilityProfile)
  (weights : SustainabilityWeights) :
  CalculateScore data weights = score_spec data weights.
Proof.
  unfold CalculateScore, score_spec, calculateTotalCO2WeightedScore,
    calculateCostWeightedScore, calculateCO2WeightedScore.
  do 2 f_equal.
  destruct (Emissions data) as [|first others] eqn:Hem.
  - simpl. lra.
  - rewrite latestTimeFrom_first. f_equal.
    unfold weightedCO2From, decayedSum.
    rewrite (fold_left_sum
               (fun e => CalculateDecayFactor e
                           (NewDecayParameters (referenceTime first others)
                              (Weights.DecayRate weights)) * Co2 e)).
    rewrite Rplus_0_l. reflexivity.
Qed.

(** C2: for every profile and weights, [CalculateScore] is
    [co2DecayWeight * decayedSum + totalCo2Weight * totalCo2
     + costWeight / (1 + totalCost)], where [decayedSum] is the sum over the
    emission points of the decay factor of the point (taken against the
    latest timestamp of the sequence) times its CO2 value; and for an empty
    emissions sequence the decay-weighted term is exactly 0 whatever the
    weights. *)
Theorem CalculateScore_formula (data : SustainabilityProfile)
  (weights : SustainabilityWeights) :
  CalculateScore data weights
  = CO2DecayWeight weights
    * decayedSum (Emissions data) (Weights.DecayRate weights)
    + TotalCO2Weight weights * TotalCo2 data
    + CostWeight weights / (1 + TotalCost data)
  /\ (forall totalCo2 totalCost co2Weight decayRate,
        calculateCO2WeightedScore
          (NewSustainabilityProfile [] totalCo2 totalCost) co2Weight decayRate
        = 0).
Proof.
  split; [apply CalculateScore_score_spec | reflexivity].
Qed.

(** A point at the reference time is 0 hours old. *)
Lemma Hours_Sub_same (t : GoTime.Time) : GoTime.Hours (GoTime.Sub t t) = 0.
Proof.
  unfold GoTime.Sub. rewrite Z.sub_diag. simpl.
  unfold GoTime.Hours.
  rewrite Z.quot_0_l, Z.rem_0_l by discriminate.
  unfold Rdiv. rewrite Rmult_0_l. lra.
Qed.

(** The end-to-end scenario of the specification: three points at the
    reference time with CO2 values 1, 2 and 3, totals 10 and 5, weights
    2, 1 and 1: the score is 2 * 3 + 10 + 1 / 6. *)
Example CalculateScore_scenario :
  CalculateScore
    (NewSustainabilityProfile
       [NewEmissionDataPoint 1 7200%Z; NewEmissionDataPoint 2 7200%Z;
        NewEmissionDataPoint 3 7200%Z] 10 5)
    (NewSustainabilityWeights 2 1 1 (1 / 10))
  = 97 / 6.
Proof.
  rewrite CalculateScore_score_spec. unfold score_spec, decayedSum. cbn [Emissions NewSustainabilityProfile fold_right].
  replace (referenceTime (NewEmissionDataPoint 1 7200%Z)
             [NewEmissionDataPoint 2 7200%Z; NewEmissionDataPoint 3 7200%Z])
    with 7200%Z by reflexivity.
  unfold decayFactor. cbn [Time NewEmissionDataPoint].
  rewrite Hours_Sub_same.
  cbn [Weights.DecayRate CO2DecayWeight TotalCO2Weight CostWeight
       NewSustainabilityWeights TotalCo2 TotalCost Co2].
  rewrite decayAt_zero. simpl. lra.
Qed.

End ProfileFacts.

(** ** The configuration check *)

(** A cost weight of 0 and a decay rate of 0 pass
    [ValidateGreenSchedulingArgs]. *)
Example ValidateGreenSchedulingArgs_accepts_zero :
  Plugin.ValidateGreenSchedulingArgs
    (ApiConfig.mkGreenSchedulingArgs "https://sic.example/token" "id"
       "secret" "sic.example" "serial" 2 1 0 0 "hour" 7)
  = None.
Proof.
  unfold Plugin.ValidateGreenSchedulingArgs, Rltb, Rleb. simpl.
  repeat match goal with
         | |- context [Rlt_dec ?x ?y] => destruct (Rlt_dec x y); [lra|]
         | |- context [Rle_dec ?x ?y] => destruct (Rle_dec x y); [lra|]
         end.
  reflexivity.
Qed.

(** ** The orchestrator *)

Section ScoreFacts.
Import Sicresponse Plugin Framework.

Variable parseRFC3339 : string -> result GoTime.Time.
Variable GetNodeLabelValue : string -> string -> LabelLookup.
Variable fetchSicData :
  Sicparams.Params -> result (UsageByEntityResponse * UsageSeriesResponse).

Lemma int64_of_float_0 : int64_of_float (0 * scoreScalingFactor) = 0%Z.
Proof.
  unfold int64_of_float, Rleb. rewrite Rmult_0_l.
  destruct (Rle_dec 0 0) as [_|H]; [|exfalso; apply H; lra].
  unfold Int_part. rewrite <- (tech_up 0 1); [reflexivity | lra | lra].
Qed.

(** C9: when the usage-by-entity response has no items,
    [calculateSustainabilityScore] returns 0 for every list of emission
    data points and every configuration of the weights; it has no error
    result.  In [Score], when the series builds into data points, the node
    is then scored 0 with the status [Success]. *)
Theorem calculateSustainabilityScore_no_entity (config : Config)
  (usageByEntity : UsageByEntityResponse)
  (dataPoints : list Decay.EmissionDataPoint) :
  Items usageByEntity = [] ->
  calculateSustainabilityScore config usageByEntity dataPoints = 0%R
  /\ (forall nodeName serialNum params usageSeries,
        GetNodeLabelValue nodeName (SerialNumLabel config)
        = LabelValue serialNum ->
        buildSicParams serialNum = Ok params ->
        fetchSicData params = Ok (usageByEntity, usageSeries) ->
        buildEmissionDataPoints parseRFC3339 usageSeries = Ok dataPoints ->
        Plugin.Score parseRFC3339 GetNodeLabelValue fetchSicData config
          nodeName
        = (0%Z, Success)).
Proof.
  intros Hitems.
  assert (Hzero : calculateSustainabilityScore config usageByEntity dataPoints
                  = 0%R).
  { unfold calculateSustainabilityScore. rewrite Hitems. reflexivity. }
  split; [exact Hzero|].
  intros nodeName serialNum params usageSeries Hlabel Hparams Hfetch Hbuild.
  unfold Plugin.Score. rewrite Hlabel, Hparams, Hfetch, Hbuild, Hzero.
  rewrite int64_of_float_0. reflexivity.
Qed.

End ScoreFacts.

Lemma calculateSustainabilityScore_no_entity_witness :
  Plugin.calculateSustainabilityScore
    (Plugin.mkConfig (Plugin.mkTimeSeriesConfig 7%R "hour")
       (Plugin.mkSustainabilityWeights 2%R 1%R 1%R (1 / 10)%R) "serial")
    (Sicresponse.mkUsageByEntityResponse [] 0 0 0)
    [Decay.mkEmissionDataPoint 3%R 7200]
  = 0%R.
Proof.
  refine (proj1 (calculateSustainabilityScore_no_entity
                   (fun _ => Err "") (fun _ _ => Plugin.ErrNodeNotFound)
                   (fun _ => Err "") _ _ _ _)).
  reflexivity.
Defined.

(** A new manager, a clock past the zero time and an endpoint that answers
    503: the error is returned, one request was sent, the manager is as
    new. *)
Lemma GetToken_refreshes_iff_expired_witness :
  let tm := Sicclient.NewTokenManager
              (Sicclient.mkTokenConfig "https://sic.example/token" "id" "secret") in
  Sicclient.GetToken (fun n => 1000 + Z.of_nat n)
    (fun _ _ => Sicclient.Response 503 "503 Service Unavailable" "")
    (fun s => s) (fun _ => None) (fun _ => Err "EOF")
    tm (Sicclient.mkWorld 0 [])
  = (Err "failed to generate token: 503 Service Unavailable", tm,
     Sicclient.mkWorld 1 [Sicclient.tokenRequest (fun s => s) tm]).
Proof.
  intros tm.
  destruct (GetToken_refreshes_iff_expired (fun n => 1000 + Z.of_nat n)
              (fun _ _ => Sicclient.Response 503 "503 Service Unavailable" "")
              (fun s => s) (fun _ => None) (fun _ => Err "EOF")
              tm (Sicclient.mkWorld 0 []))
    as (_ & _ & _ & _ & _ & Hresp).
  destruct (Hresp 503 "503 Service Unavailable" ""%string) as [Hne _].
  - reflexivity.
  - reflexivity.
  - reflexivity.
  - apply Hne. discriminate.
Defined.

(* ===================================================================== *)
(** * Further properties of the code *)
(* ===================================================================== *)

(** ** The normalizer on every batch *)

Section NormalizerMore.
Import Plugin Framework.

Lemma higherScore_from_ge (scores : NodeScoreList) (hs : Z) :
  hs <= fold_left (fun hs node => if hs <? Score node then Score node else hs)
          scores hs.
Proof.
  revert hs. induction scores as [|node scores IH]; intros hs; simpl; [lia|].
  destruct (Z.ltb_spec hs (Score node)).
  - specialize (IH (Score node)). lia.
  - apply IH.
Qed.

Lemma higherScore_from_upper (scores : NodeScoreList) (hs : Z) :
  Forall (fun node =>
            Score node
            <= fold_left (fun hs node =>
                            if hs <? Score node then Score node else hs)
                 scores hs) scores.
Proof.
  revert hs. induction scores as [|node scores IH]; intros hs; simpl.
  - constructor.
  - constructor; [|apply IH].
    destruct (Z.ltb_spec hs (Score node)).
    + apply higherScore_from_ge.
    + pose proof (higherScore_from_ge scores hs). lia.
Qed.

Lemma higherScore_from_attained (scores : NodeScoreList) (hs : Z) :
  let m := fold_left (fun hs node =>
                        if hs <? Score node then Score node else hs)
             scores hs in
  m = hs \/ Exists (fun node => Score node = m) scores.
Proof.
  revert hs. induction scores as [|node scores IH]; intros hs; simpl.
  - left. reflexivity.
  - destruct (Z.ltb_spec hs (Score node)).
    + destruct (IH (Score node)) as [Heq|Hex].
      * right. left. simpl in Heq. symmetry. exact Heq.
      * right. right. exact Hex.
    + destruct (IH hs) as [Heq|Hex]; [left; exact Heq | right; right; exact Hex].
Qed.

Lemma higherScore_nonneg (scores : NodeScoreList) : 0 <= higherScore scores.
Proof. apply higherScore_from_ge. Qed.

Lemma rescale_zero_panics (node : NodeScore) (scores : NodeScoreList) :
  rescale 0 0 (length (node :: scores)) (node :: scores)
  = Panics "runtime error: integer divide by zero".
Proof. reflexivity. Qed.

(** X1: [NormalizeScore] returns normally exactly on the empty batch and on
    the batches with a positive maximum; on every other batch (non-empty,
    no score above 0) it panics with the integer division by zero, and
    that is its only panic. *)
Theorem NormalizeScore_returns_iff (scores : NodeScoreList) :
  ((exists out, NormalizeScore scores = Returns out)
   <-> scores = [] \/ 0 < higherScore scores)
  /\ (NormalizeScore scores = Panics "runtime error: integer divide by zero"
      <-> scores <> [] /\ Forall (fun node => Score node <= 0) scores)
  /\ (forall msg, NormalizeScore scores = Panics msg ->
                  msg = "runtime error: integer divide by zero").
Proof.
  pose proof (higherScore_nonneg scores) as Hge.
  destruct (Z.eq_dec (higherScore scores) 0) as [H0|Hpos].
  - assert (Hall : Forall (fun node => Score node <= 0) scores).
    { pose proof (higherScore_from_upper scores 0) as Hup.
      fold (higherScore scores) in Hup. rewrite H0 in Hup. exact Hup. }
    destruct scores as [|node scores].
    + split; [|split].
      * split; [auto | intros _; eexists; reflexivity].
      * split; [discriminate | intros [Hne _]; congruence].
      * discriminate.
    + assert (Hp : NormalizeScore (node :: scores)
                   = Panics "runtime error: integer divide by zero").
      { unfold NormalizeScore. rewrite H0. apply rescale_zero_panics. }
      rewrite Hp. split; [|split].
      * split; [intros [out Hout]; discriminate|].
        intros [Hnil|Hlt]; [discriminate | lia].
      * split; [intros _; split; [discriminate | exact Hall] | reflexivity].
      * intros msg [= <-]. reflexivity.
  - assert (Hlt : 0 < higherScore scores) by lia.
    pose proof (rescale_pos (higherScore scores) scores [] Hlt) as Hr.
    simpl in Hr. fold (NormalizeScore scores) in Hr. rewrite Hr.
    split; [|split].
    + split; [intros _; right; exact Hlt | intros _; eexists; reflexivity].
    + split; [discriminate|]. intros [_ Hall].
      rewrite (higherScore_nonpos scores Hall) in Hlt. lia.
    + discriminate.
Qed.

(** X2: on a batch of non-negative scores with a positive maximum, none so
    large that a hundredfold overflows [int64], the normalized scores lie
    between 0 and [MaxNodeScore], a node holding the maximum receives
    exactly [MaxNodeScore], names and positions are kept, and the order of
    any two scores is kept (a node scoring no more than another is
    normalized to no more). *)
Theorem NormalizeScore_bounds (scores : NodeScoreList) :
  Forall (fun node => 0 <= Score node /\ Score node * 100 <= Int64.max_int)
         scores ->
  0 < higherScore scores ->
  exists out,
    NormalizeScore scores = Returns out
    /\ map Name out = map Name scores
    /\ Forall (fun node => 0 <= Score node <= MaxNodeScore) out
    /\ Exists (fun node => Score node = MaxNodeScore) out
    /\ (forall i j a b a' b',
          scores !! i = Some a -> scores !! j = Some b ->
          out !! i = Some a' -> out !! j = Some b' ->
          Score a <= Score b -> Score a' <= Score b').
Proof.
  intros Hrange Hmax.
  pose proof (rescale_pos (higherScore scores) scores [] Hmax) as Hr.
  simpl in Hr. fold (NormalizeScore scores) in Hr.
  set (hs := higherScore scores) in *.
  exists (map (rescaled hs) scores). split; [exact Hr|].
  assert (Hup : Forall (fun node => Score node <= hs) scores)
    by apply higherScore_from_upper.
  assert (Hval : forall node, node ∈ scores ->
            Score (rescaled hs node) = (Score node * 100) ÷ hs).
  { intros node Hin. unfold rescaled, MaxNodeScore. simpl.
    rewrite Forall_forall in Hrange. destruct (Hrange node Hin) as [H0 H1].
    rewrite wrap_in_range; [reflexivity|].
    unfold Int64.in_range, Int64.min_int. lia. }
  split; [|split; [|split]].
  - rewrite map_map. reflexivity.
  - rewrite Forall_map. rewrite Forall_forall. intros node Hin.
    rewrite (Hval node Hin). rewrite Forall_forall in Hrange, Hup.
    destruct (Hrange node Hin) as [H0 _]. specialize (Hup node Hin).
    unfold MaxNodeScore. split.
    + apply Z.quot_pos; lia.
    + apply Z.quot_le_upper_bound; [lia|]. nia.
  - destruct (higherScore_from_attained scores 0) as [Heq|Hex].
    + simpl in Heq. fold (higherScore scores) in Heq. fold hs in Heq. lia.
    + simpl in Hex. fold (higherScore scores) in Hex. fold hs in Hex.
      rewrite Exists_exists in Hex. destruct Hex as (node & Hin & Hnode).
      rewrite Exists_exists. exists (rescaled hs node). split.
      * apply list_elem_of_fmap. exists node. auto.
      * rewrite (Hval node Hin), Hnode. unfold MaxNodeScore.
        rewrite Z.mul_comm. apply Z.quot_mul. lia.
  - intros i j a b a' b' Ha Hb Ha' Hb' Hle.
    rewrite list_lookup_fmap, Ha in Ha'. rewrite list_lookup_fmap, Hb in Hb'.
    simpl in Ha', Hb'. injection Ha' as <-. injection Hb' as <-.
    rewrite (Hval a) by (eapply list_elem_of_lookup_2; exact Ha).
    rewrite (Hval b) by (eapply list_elem_of_lookup_2; exact Hb).
    rewrite Forall_forall in Hrange.
    destruct (Hrange a) as [H0a _];
      [eapply list_elem_of_lookup_2; exact Ha|].
    rewrite !Z.quot_div_nonneg by lia.
    apply Z.div_le_mono; lia.
Qed.

Lemma NormalizeScore_bounds_witness :
  exists out,
    NormalizeScore [mkNodeScore "a" 16166; mkNodeScore "b" 4000]
    = Returns out
    /\ map Name out = ["a"; "b"]
    /\ Forall (fun node => 0 <= Score node <= MaxNodeScore) out.
Proof.
  destruct (NormalizeScore_bounds
              [mkNodeScore "a" 16166; mkNodeScore "b" 4000])
    as (out & Hout & Hnames & Hrange & _).
  - repeat constructor; simpl; unfold Int64.max_int; lia.
  - reflexivity.
  - exists out. auto.
Defined.

End NormalizerMore.

(** ** Filters: construction, frame and repeated serialization *)

Section FiltersMore.
Import Sicparams.

Lemma existsb_eqb_elem_of (s : string) (l : list string) :
  existsb (String.eqb s) l = true <-> s ∈ l.
Proof.
  rewrite existsb_exists. split.
  - intros (x & Hin & Heq). apply String.eqb_eq in Heq. subst x.
    apply list_elem_of_In. exact Hin.
  - intros Hin. exists s. split; [apply list_elem_of_In, Hin|].
    apply String.eqb_refl.
Qed.

(** X3: [NewFilter] builds the filter, holding the key, the operator and
    the value as given, exactly when the key is one of the twelve filter
    keys and the operator one of [eq], [contains] and [in]; an invalid key
    is reported before an invalid operator; and a filter it built with
    a string value and an operator other than [in] serializes, without a
    panic and without touching the store, to [key eq 'value'] or to
    [contains(key, 'value')]. *)
Theorem NewFilter_ok_iff (key : FilterKey) (operator : FilterOperator)
  (v : value) :
  let keys := [EntityID; EntityMake; EntityModel; EntityType;
               EntitySerialNum; EntityProductID; LocationName; LocationID;
               LocationCity; LocationState; LocationCountry; Name] in
  let operators := [Equals; Contains; In] in
  (NewFilter key operator v = Ok (mkFilter key operator v)
   <-> key ∈ keys /\ operator ∈ operators)
  /\ (forall f, NewFilter key operator v = Ok f ->
                f = mkFilter key operator v)
  /\ (key ∉ keys ->
      NewFilter key operator v = Err ("invalid filter key: " +:+ key))
  /\ (key ∈ keys -> operator ∉ operators ->
      NewFilter key operator v
      = Err ("invalid filter operator: " +:+ operator))
  /\ (forall f s h,
        NewFilter key operator (VString s) = Ok f -> operator <> In ->
        GetValue f h = (Returns (key +:+ " eq '" +:+ s +:+ "'"), h)
        \/ GetValue f h
           = (Returns ("contains(" +:+ key +:+ ", '" +:+ s +:+ "')"), h)).
Proof.
  intros keys operators.
  assert (Hk : isValidKey key = true <-> key ∈ keys)
    by apply existsb_eqb_elem_of.
  assert (Ho : isValidOperator operator = true <-> operator ∈ operators)
    by apply existsb_eqb_elem_of.
  unfold NewFilter.
  destruct (isValidKey key) eqn:Ek; destruct (isValidOperator operator) eqn:Eo;
    simpl.
  - split; [|split; [|split; [|split]]].
    + split; [intros _; split; [apply Hk | apply Ho]; reflexivity | reflexivity].
    + intros f [= <-]. reflexivity.
    + intros Hn. exfalso. apply Hn, Hk. reflexivity.
    + intros _ Hn. exfalso. apply Hn, Ho. reflexivity.
    + intros f s h [= <-] Hne.
      assert (Hops : operator ∈ operators) by (apply Ho; reflexivity).
      unfold operators in Hops.
      repeat (apply elem_of_cons in Hops as [->|Hops]);
        [left; reflexivity | right; reflexivity | congruence |
         inversion Hops].
  - split; [|split; [|split; [|split]]].
    + split; [discriminate|]. intros [_ Hin]. apply Ho in Hin. discriminate.
    + discriminate.
    + intros Hn. exfalso. apply Hn, Hk. reflexivity.
    + reflexivity.
    + discriminate.
  - split; [|split; [|split; [|split]]].
    + split; [discriminate|]. intros [Hin _]. apply Hk in Hin. discriminate.
    + discriminate.
    + reflexivity.
    + intros Hin. apply Hk in Hin. discriminate.
    + discriminate.
  - split; [|split; [|split; [|split]]].
    + split; [discriminate|]. intros [Hin _]. apply Hk in Hin. discriminate.
    + discriminate.
    + reflexivity.
    + intros Hin. apply Hk in Hin. discriminate.
    + discriminate.
Qed.

Lemma GetValue_not_In (f : Filter) (h : store) :
  Operator f <> In ->
  exists s, GetValue f h = (Returns s, h).
Proof.
  intros Hne. unfold GetValue.
  destruct (String.eqb_spec (Operator f) In) as [Heq|_]; [contradiction|].
  destruct (String.eqb (Operator f) Contains); eexists; reflexivity.
Qed.

Lemma quoteAll_lookup_other (l l' : loc) (h : store) :
  l <> l' -> quoteAll l h !! l' = h !! l'.
Proof.
  intros Hne. destruct (h !! l) as [vs|] eqn:Hl.
  - rewrite (quoteAll_allocated _ _ _ Hl). apply lookup_insert_ne, Hne.
  - rewrite (quoteAll_unallocated _ _ Hl). reflexivity.
Qed.

Lemma quoteAll_lookup_same (l : loc) (h : store) :
  quoteAll l h !! l = map quote <$> h !! l.
Proof.
  destruct (h !! l) as [vs|] eqn:Hl.
  - rewrite (quoteAll_allocated _ _ _ Hl). apply lookup_insert_eq.
  - rewrite (quoteAll_unallocated _ _ Hl). exact Hl.
Qed.

(** X4: what [GetValue] leaves alone.  A filter whose operator is not [in]
    serializes without a panic and without changing the store.  A filter
    whose value is not a string slice never changes the store.  An [in]
    filter over the slice [l] changes no array but that of [l]; it never
    allocates, frees, lengthens or shortens an array. *)
Theorem GetValue_frame (f : Filter) (h : store) :
  (Operator f <> In -> exists s, GetValue f h = (Returns s, h))
  /\ ((forall l, Value f <> VStrings l) -> (GetValue f h).2 = h)
  /\ (forall l l', Value f = VStrings l -> l <> l' ->
                   (GetValue f h).2 !! l' = h !! l')
  /\ (forall l', length (elems (GetValue f h).2 l') = length (elems h l')
                 /\ ((GetValue f h).2 !! l' = None <-> h !! l' = None)).
Proof.
  split; [apply GetValue_not_In|]. split; [|split].
  - intros Hv. destruct (GetValue_store f h) as [Heq|(l & _ & Hl & _)];
      [exact Heq | exfalso; eapply Hv; exact Hl].
  - intros l l' Hv Hne.
    destruct (GetValue_store f h) as [->|(l0 & _ & Hl0 & ->)];
      [reflexivity|].
    rewrite Hv in Hl0. injection Hl0 as <-.
    apply quoteAll_lookup_other, Hne.
  - intros l'. destruct (GetValue_store f h) as [->|(l0 & _ & _ & ->)].
    + split; reflexivity.
    + destruct (decide (l0 = l')) as [<-|Hne].
      * rewrite elems_quoteAll_same, length_map, quoteAll_lookup_same.
        split; [reflexivity|]. destruct (h !! l0); simpl; split; congruence.
      * rewrite elems_quoteAll_other, quoteAll_lookup_other by exact Hne.
        split; reflexivity.
Qed.

Lemma GetValue_frame_witness :
  exists s,
    GetValue (mkFilter EntityMake Contains (VString "Dell"))
      {[ 1%positive := ["a"] ]}
    = (Returns s, {[ 1%positive := ["a"] ]}).
Proof.
  apply (proj1 (GetValue_frame (mkFilter EntityMake Contains (VString "Dell"))
                  {[ 1%positive := ["a"] ]})).
  discriminate.
Defined.

Lemma iter_quote_map (n : nat) (vs : list string) :
  map quote (map (Nat.iter n quote) vs) = map (Nat.iter (S n) quote) vs.
Proof. rewrite map_map. reflexivity. Qed.

(** X5: [GetValue] accumulates.  After [n] calls on an [in] filter over an
    allocated slice every member is wrapped in [n] pairs of quotes, all
    other arrays are as before, and the next call returns the members
    wrapped in [n + 1] pairs. *)
Theorem GetValue_In_n_times (f : Filter) (h : store) (l : loc)
  (vs : list string) (n : nat) :
  Operator f = In -> Value f = VStrings l -> h !! l = Some vs ->
  let h_n := Nat.iter n (fun h => (GetValue f h).2) h in
  h_n = <[l := map (Nat.iter n quote) vs]> h
  /\ (GetValue f h_n).1
     = Returns (Key f +:+ " in ("
                +:+ Join (map (Nat.iter (S n) quote) vs) ", " +:+ ")").
Proof.
  intros Hop Hv Hl. simpl.
  assert (Hn : Nat.iter n (fun h => (GetValue f h).2) h
               = <[l := map (Nat.iter n quote) vs]> h).
  { induction n as [|n IH].
    - simpl. rewrite map_id. symmetry. apply insert_id, Hl.
    - cbn [Nat.iter nat_rect]. unfold Nat.iter in IH. rewrite IH.
      rewrite (GetValue_In_allocated f _ l (map (Nat.iter n quote) vs)
                 Hop Hv (lookup_insert_eq _ _ _)).
      cbn [snd]. rewrite insert_insert_eq. rewrite map_map. reflexivity. }
  split; [exact Hn|]. rewrite Hn.
  rewrite (GetValue_In_allocated f _ l (map (Nat.iter n quote) vs)
             Hop Hv (lookup_insert_eq _ _ _)).
  cbn [fst]. rewrite map_map. reflexivity.
Qed.

Lemma GetValue_In_n_times_witness :
  (GetValue (mkFilter Name In (VStrings 1%positive))
     (Nat.iter 2 (fun h => (GetValue (mkFilter Name In (VStrings 1%positive))
                              h).2)
        {[ 1%positive := ["x"] ]})).1
  = Returns "name in ('''x''')".
Proof.
  exact (proj2 (GetValue_In_n_times (mkFilter Name In (VStrings 1%positive))
                  {[ 1%positive := ["x"] ]} 1%positive ["x"] 2
                  eq_refl eq_refl eq_refl)).
Defined.

Lemma GetValue_text_local (f : Filter) (h h' : store) :
  (forall l, Value f = VStrings l -> h !! l = h' !! l) ->
  (GetValue f h).1 = (GetValue f h').1.
Proof.
  intros Hsame. unfold GetValue, formatInValues.
  destruct (Value f) as [s|l|n|] eqn:Hv.
  - destruct (String.eqb (Operator f) In); [reflexivity|].
    destruct (String.eqb (Operator f) Contains); reflexivity.
  - specialize (Hsame l eq_refl).
    assert (He : elems h l = elems h' l) by (unfold elems; rewrite Hsame; reflexivity).
    destruct (String.eqb (Operator f) In).
    + simpl. rewrite !elems_quoteAll_same, He. reflexivity.
    + destruct (String.eqb (Operator f) Contains); simpl; rewrite He;
        reflexivity.
  - destruct (String.eqb (Operator f) In); [reflexivity|].
    destruct (String.eqb (Operator f) Contains); reflexivity.
  - destruct (String.eqb (Operator f) In); [reflexivity|].
    destruct (String.eqb (Operator f) Contains); reflexivity.
Qed.

(** X6: aliasing between filters.  The text of a filter depends on the
    store only through the backing array of its own slice.  Serializing an
    [in] filter [f1] therefore leaves the text of a filter whose value is
    not a slice, or is a slice with another backing array, as it was,
    while a second filter holding the same slice as [f1], whatever its
    key, is then serialized with the members quoted twice (or, if it is an
    equality filter, with the quoted members inside its value).  Two
    slices that overlap in part are outside the model. *)
Theorem GetValue_aliasing (f1 f2 : Filter) (h : store) (l1 : loc)
  (vs : list string) :
  Operator f1 = In -> Value f1 = VStrings l1 -> h !! l1 = Some vs ->
  let h1 := (GetValue f1 h).2 in
  (* no slice of the array of [f1]: no interference *)
  (Value f2 <> VStrings l1 -> (GetValue f2 h1).1 = (GetValue f2 h).1)
  (* the slice of [f1], second filter [in] *)
  /\ (Value f2 = VStrings l1 -> Operator f2 = In ->
      (GetValue f2 h1).1
      = Returns (Key f2 +:+ " in ("
                 +:+ Join (map quote (map quote vs)) ", " +:+ ")"))
  (* the slice of [f1], second filter [eq] *)
  /\ (Value f2 = VStrings l1 -> Operator f2 = Equals ->
      (GetValue f2 h1).1
      = Returns (Key f2 +:+ " eq '"
                 +:+ ("[" +:+ Join (map quote vs) " " +:+ "]") +:+ "'")).
Proof.
  intros Hop Hv Hl. simpl.
  rewrite (GetValue_In_allocated f1 h l1 vs Hop Hv Hl). cbn [snd].
  split; [|split].
  - intros Hne. apply GetValue_text_local. intros l Hl2.
    apply lookup_insert_ne. intros <-. apply Hne. exact Hl2.
  - intros Hv2 Hop2.
    rewrite (GetValue_In_allocated f2 _ l1 (map quote vs)
               Hop2 Hv2 (lookup_insert_eq _ _ _)).
    reflexivity.
  - intros Hv2 Hop2. unfold GetValue. rewrite Hop2, Hv2. simpl.
    rewrite (elems_lookup _ _ (map quote vs)) by apply lookup_insert_eq.
    reflexivity.
Qed.

Lemma GetValue_aliasing_witness :
  let h : store := {[ 1%positive := ["a"; "b"] ]} in
  (GetValue (mkFilter EntityID In (VStrings 1%positive))
     (GetValue (mkFilter EntityMake In (VStrings 1%positive)) h).2).1
  = Returns "entityId in (''a'', ''b'')".
Proof.
  exact (proj1 (proj2 (GetValue_aliasing
                         (mkFilter EntityMake In (VStrings 1%positive))
                         (mkFilter EntityID In (VStrings 1%positive))
                         {[ 1%positive := ["a"; "b"] ]} 1%positive
                         ["a"; "b"] eq_refl eq_refl eq_refl))
           eq_refl eq_refl).
Defined.

End FiltersMore.

(** ** Serialization of a [Params] *)

Section ParamsMore.
Import Sicparams.

Lemma GetValue_returns_iff (f : Filter) (h : store) :
  (exists s, (GetValue f h).1 = Returns s)
  <-> (Operator f = In -> exists l, Value f = VStrings l).
Proof.
  unfold GetValue, formatInValues.
  destruct (String.eqb_spec (Operator f) In) as [Hop|Hop].
  - destruct (Value f) as [s|l|n|]; simpl; split;
      try (intros [s' Hs']; discriminate);
      try (intros Hex; destruct (Hex Hop) as [l' Hl']; discriminate).
    + intros _ _. eexists. reflexivity.
    + intros _. eexists. reflexivity.
  - split; [intros _ Hin; contradiction|]. intros _.
    destruct (String.eqb (Operator f) Contains); eexists; reflexivity.
Qed.

Lemma addFilters_app (fs1 fs2 : list Filter) (q : Values) (h : store) :
  addFilters (fs1 ++ fs2) q h
  = match addFilters fs1 q h with
    | (Panics msg, h') => (Panics msg, h')
    | (Returns q', h') => addFilters fs2 q' h'
    end.
Proof.
  revert q h. induction fs1 as [|f fs1 IH]; intros q h; simpl;
    [reflexivity|].
  destruct (GetValue f h) as [[s|msg] h1]; [apply IH | reflexivity].
Qed.

Lemma addFilters_returns_iff (fs : list Filter) (q : Values) (h : store) :
  (exists q' h', addFilters fs q h = (Returns q', h'))
  <-> Forall (fun f => Operator f = In -> exists l, Value f = VStrings l) fs.
Proof.
  revert q h. induction fs as [|f fs IH]; intros q h; simpl.
  - split; [constructor | intros _; eauto].
  - pose proof (GetValue_returns_iff f h) as Hf.
    destruct (GetValue f h) as [[s|msg] h1]; simpl in Hf.
    + rewrite IH. split.
      * intros Hall. constructor; [apply Hf; eauto | exact Hall].
      * intros Hall. inversion Hall; assumption.
    + split.
      * intros (q' & h' & Hrun). discriminate.
      * intros Hall. inversion Hall as [|? ? Hwt _]; subst.
        apply Hf in Hwt. destruct Hwt as [s Hs]. discriminate.
Qed.

Lemma addFilters_other (fs : list Filter) (q q' : Values) (h h' : store)
  (key : string) :
  addFilters fs q h = (Returns q', h') -> key <> "filter" ->
  q' !! key = q !! key.
Proof.
  revert q h. induction fs as [|f fs IH]; intros q h; simpl.
  - intros [= <- <-] _. reflexivity.
  - destruct (GetValue f h) as [[s|msg] h1]; [|discriminate].
    intros Hrun Hne. rewrite (IH _ _ Hrun Hne).
    apply Values_Add_other. congruence.
Qed.

Lemma addFilters_texts (fs : list Filter) (q q' : Values) (h h' : store) :
  addFilters fs q h = (Returns q', h') ->
  exists outs,
    length outs = length fs
    /\ (fs <> [] -> q' !! "filter" = Some (default [] (q !! "filter") ++ outs))
    /\ (fs = [] -> q' = q)
    /\ (forall i f, fs !! i = Some f ->
          exists s, outs !! i = Some s
                    /\ (GetValue f (addFilters (take i fs) q h).2).1
                       = Returns s).
Proof.
  revert q h. induction fs as [|f fs IH]; intros q h; simpl.
  - intros [= <- <-]. exists []. repeat split; try congruence.
    intros i f Hi. rewrite lookup_nil in Hi. discriminate.
  - destruct (GetValue f h) as [[s|msg] h1] eqn:Hf; [|discriminate].
    intros Hrun. destruct (IH _ _ Hrun) as (outs & Hlen & Hsome & Hnil & Hnth).
    exists (s :: outs). split; [simpl; congruence|]. split; [|split].
    + intros _. destruct fs as [|f' fs].
      * rewrite (Hnil eq_refl). destruct outs; [|discriminate].
        unfold Values_Add. rewrite lookup_insert_eq. reflexivity.
      * rewrite Hsome by discriminate. rewrite Values_Add_same.
        rewrite <- app_assoc. reflexivity.
    + discriminate.
    + intros [|i] f0 Hi; simpl in Hi.
      * injection Hi as <-. exists s. split; [reflexivity|].
        simpl. rewrite Hf. reflexivity.
      * destruct (Hnth i f0 Hi) as (s0 & Hs0 & Htext).
        exists s0. split; [exact Hs0|]. simpl. rewrite Hf. exact Htext.
Qed.

Lemma addSorts_other (ss : list Sort) (q : Values) (key : string) :
  key <> "sort" -> addSorts ss q !! key = q !! key.
Proof.
  intros Hne. unfold addSorts. revert q.
  induction ss as [|s ss IH]; intros q; [reflexivity|].
  cbn [fold_left]. rewrite IH. apply Values_Add_other. congruence.
Qed.

Lemma addSorts_sort (ss : list Sort) (q : Values) :
  ss <> [] ->
  addSorts ss q !! "sort"
  = Some (default [] (q !! "sort") ++ map Sort_GetValue ss).
Proof.
  unfold addSorts. revert q. induction ss as [|s ss IH]; intros q Hne;
    [congruence|].
  cbn [fold_left map]. destruct ss as [|s' ss].
  - simpl. unfold Values_Add. rewrite lookup_insert_eq. reflexivity.
  - rewrite IH by discriminate. rewrite Values_Add_same, <- app_assoc.
    reflexivity.
Qed.

(** X7: [ToQueryParams] returns normally exactly when every [in] filter of
    the parameters holds a string slice.  Otherwise it panics at the first
    filter that does not, and the store it leaves is the one the filters
    before that one produced: the quotes they added are not taken back. *)
Theorem ToQueryParams_returns_iff (p : Params) (h : store) :
  ((exists q h', ToQueryParams p h = (Returns q, h'))
   <-> Forall (fun f => Operator f = In -> exists l, Value f = VStrings l)
         (filters p))
  /\ (forall fs1 bad fs2,
        filters p = fs1 ++ bad :: fs2 ->
        Forall (fun f => Operator f = In -> exists l, Value f = VStrings l)
          fs1 ->
        Operator bad = In -> (forall l, Value bad <> VStrings l) ->
        ToQueryParams p h
        = (Panics ("interface conversion: interface {} is "
                   +:+ type_name (Value bad) +:+ ", not []string"),
           (addFilters fs1 ∅ h).2)).
Proof.
  split.
  - rewrite <- (addFilters_returns_iff (filters p) ∅ h).
    unfold ToQueryParams.
    destruct (addFilters (filters p) ∅ h) as [[q|msg] h1].
    + split; intros _; eauto.
    + split; intros (q' & h' & Hrun); discriminate.
  - intros fs1 bad fs2 Hfs Hwt Hop Hbad. unfold ToQueryParams.
    rewrite Hfs, addFilters_app.
    destruct (proj2 (addFilters_returns_iff fs1 ∅ h) Hwt) as (q1 & h1 & ->).
    cbn [addFilters snd]. unfold GetValue. rewrite Hop. simpl.
    destruct (Value bad) as [s|l|n|]; try reflexivity.
    exfalso. eapply Hbad. reflexivity.
Qed.

Lemma ToQueryParams_returns_iff_witness :
  let h : store := {[ 1%positive := ["a"] ]} in
  ToQueryParams
    (AddFilter (AddFilter NewParams
                  (mkFilter EntityMake In (VStrings 1%positive)))
       (mkFilter EntityID In (VInt 7)))
    h
  = (Panics "interface conversion: interface {} is int, not []string",
     {[ 1%positive := ["'a'"] ]}).
Proof.
  intros h.
  rewrite (proj2 (ToQueryParams_returns_iff
                    (AddFilter (AddFilter NewParams
                                  (mkFilter EntityMake In (VStrings 1%positive)))
                       (mkFilter EntityID In (VInt 7))) h)
             [mkFilter EntityMake In (VStrings 1%positive)]
             (mkFilter EntityID In (VInt 7)) []).
  - reflexivity.
  - reflexivity.
  - repeat constructor. intros _. eexists. reflexivity.
  - reflexivity.
  - discriminate.
Defined.

(** X8: what a returned [ToQueryParams] holds.  The only keys are
    [filter], [sort], [offset] and [limit].  [sort] holds the texts of the
    sorts in insertion order and is absent without sorts; [offset] and
    [limit] hold the single decimal value last set and are absent when the
    pointer is nil.  [filter] is absent without filters and otherwise holds
    one text per filter, in insertion order: the [i]-th text is that of the
    [i]-th filter serialized in the store the filters before it left.
    When no filter has the operator [in] the store is unchanged. *)
Theorem ToQueryParams_contents (p : Params) (h h' : store) (q : Values) :
  ToQueryParams p h = (Returns q, h') ->
  (forall key, key ∉ ["filter"; "sort"; "offset"; "limit"] ->
               q !! key = None)
  /\ q !! "sort" = match sorts p with
                   | [] => None
                   | ss => Some (map Sort_GetValue ss)
                   end
  /\ q !! "offset" = (fun o => [pretty (OValue o)]) <$> offset p
  /\ q !! "limit" = (fun l => [pretty (LValue l)]) <$> limit p
  /\ (q !! "filter" = None <-> filters p = [])
  /\ length (default [] (q !! "filter")) = length (filters p)
  /\ (forall i f, filters p !! i = Some f ->
        exists s, default [] (q !! "filter") !! i = Some s
                  /\ (GetValue f (addFilters (take i (filters p)) ∅ h).2).1
                     = Returns s)
  /\ (Forall (fun f => Operator f <> In) (filters p) -> h' = h).
Proof.
  unfold ToQueryParams.
  destruct (addFilters (filters p) ∅ h) as [[q0|msg] h1] eqn:Hrun;
    [|discriminate].
  intros [= <- <-].
  destruct (addFilters_texts _ _ _ _ _ Hrun) as (outs & Hlen & Hsome & Hnil & Hnth).
  set (q1 := addSorts (sorts p) q0).
  set (q2 := match offset p with
             | Some o => Values_Add "offset" (Offset_GetValue o) q1
             | None => q1
             end).
  set (q3 := match limit p with
             | Some l => Values_Add "limit" (Limit_GetValue l) q2
             | None => q2
             end).
  assert (H3 : forall key, key <> "limit" -> q3 !! key = q2 !! key).
  { intros key Hne. unfold q3. destruct (limit p); [|reflexivity].
    apply Values_Add_other. congruence. }
  assert (H2 : forall key, key <> "offset" -> q2 !! key = q1 !! key).
  { intros key Hne. unfold q2. destruct (offset p); [|reflexivity].
    apply Values_Add_other. congruence. }
  assert (H1 : forall key, key <> "sort" -> q1 !! key = q0 !! key).
  { intros key Hne. apply addSorts_other. exact Hne. }
  assert (H0 : forall key, key <> "filter" -> q0 !! key = None).
  { intros key Hne. rewrite (addFilters_other _ _ _ _ _ key Hrun Hne).
    apply lookup_empty. }
  assert (Hfilter : q3 !! "filter" = q0 !! "filter").
  { rewrite H3, H2, H1 by discriminate. reflexivity. }
  split; [|split; [|split; [|split; [|split; [|split; [|split]]]]]].
  - intros key Hkey.
    rewrite H3, H2, H1, H0; [reflexivity| | | |];
      intros ->; apply Hkey; set_solver.
  - rewrite H3, H2 by discriminate. unfold q1.
    destruct (sorts p) as [|s ss] eqn:Hss.
    + simpl. apply H0. discriminate.
    + rewrite addSorts_sort by discriminate.
      rewrite H0 by discriminate. reflexivity.
  - rewrite H3 by discriminate. unfold q2. destruct (offset p) as [o|]; simpl.
    + unfold Values_Add. rewrite lookup_insert_eq.
      rewrite H1, H0 by discriminate. reflexivity.
    + rewrite H1, H0 by discriminate. reflexivity.
  - unfold q3. destruct (limit p) as [l|]; simpl.
    + unfold Values_Add. rewrite lookup_insert_eq.
      rewrite H2, H1, H0 by discriminate. reflexivity.
    + rewrite H2, H1, H0 by discriminate. reflexivity.
  - rewrite Hfilter. destruct (filters p) as [|f fs] eqn:Hfs.
    + rewrite (Hnil eq_refl), lookup_empty. split; reflexivity.
    + rewrite Hsome by discriminate. split; discriminate.
  - rewrite Hfilter. destruct (filters p) as [|f fs] eqn:Hfs.
    + rewrite (Hnil eq_refl), lookup_empty. reflexivity.
    + rewrite Hsome by discriminate. rewrite lookup_empty. simpl. exact Hlen.
  - intros i f Hi. rewrite Hfilter.
    destruct (Hnth i f Hi) as (s & Hs & Htext). exists s. split; [|exact Htext].
    destruct (filters p) as [|f' fs] eqn:Hfs;
      [rewrite lookup_nil in Hi; discriminate|].
    rewrite Hsome by discriminate. rewrite lookup_empty. simpl. exact Hs.
  - intros Hall. clear - Hrun Hall.
    revert Hrun. generalize (∅ : Values).
    induction (filters p) as [|f fs IH]; intros q; simpl.
    + intros [= _ <-]. reflexivity.
    + inversion Hall as [|? ? Hf Hfs]; subst.
      destruct (GetValue_not_In f h Hf) as [s ->]. apply IH, Hfs.
Qed.

Lemma ToQueryParams_contents_witness :
  let p := AddLimit
             (AddOffset
                (AddSort (AddFilter NewParams
                            (mkFilter EntityMake Contains (VString "Dell")))
                   (mkSort SortByName Descending))
                (Some (NewOffset 20)))
             (Some (NewLimit 10)) in
  exists q,
    ToQueryParams p ∅ = (Returns q, ∅)
    /\ q !! "sort" = Some ["name desc"]
    /\ q !! "offset" = Some ["20"]
    /\ q !! "limit" = Some ["10"].
Proof.
  intros p.
  destruct (ToQueryParams p ∅) as [[q|msg] h'] eqn:Hrun;
    [|vm_compute in Hrun; discriminate].
  destruct (ToQueryParams_contents p ∅ h' q Hrun)
    as (_ & Hsort & Hoff & Hlim & _ & _ & _ & Hsame).
  exists q. rewrite Hsame by (repeat constructor; discriminate).
  repeat split; assumption.
Defined.

End ParamsMore.

(** ** Sorts *)

Section SortsMore.
Import Sicparams.

Lemma NewSort_inv (key : SortKey) (order : SortOrder) (s : Sort) :
  NewSort key order = Ok s ->
  s = mkSort key order
  /\ key ∈ [SortByEntityID; SortByEntityMake; SortByEntityModel;
            SortByEntityType; SortByEntitySerialNum; SortByEntityProductID;
            SortByLocationName; SortByLocationID; SortByLocationCity;
            SortByLocationState; SortByLocationCountry; SortByName]
  /\ order ∈ [Ascending; Descending].
Proof.
  unfold NewSort.
  destruct (isValidSortKey key) eqn:Ek; [|discriminate].
  destruct (isValidSortOrder order) eqn:Eo; [|discriminate].
  simpl. intros [= <-]. split; [reflexivity|].
  split; apply existsb_eqb_elem_of; assumption.
Qed.

(** X9: [NewSort] builds the sort exactly when the key is one of the twelve
    sort keys and the order is [asc] or [desc], reporting an invalid key
    before an invalid order; the keys it accepts are exactly the keys
    [NewFilter] accepts. *)
Theorem NewSort_ok_iff (key : SortKey) (order : SortOrder) :
  (NewSort key order = Ok (mkSort key order)
   <-> isValidSortKey key = true /\ order ∈ [Ascending; Descending])
  /\ (isValidSortKey key = false ->
      NewSort key order = Err ("invalid sort key: " +:+ key))
  /\ (isValidSortKey key = true -> order ∉ [Ascending; Descending] ->
      NewSort key order = Err ("invalid sort order: " +:+ order))
  /\ isValidSortKey key = isValidKey key
  /\ (forall v, (exists s, NewSort key order = Ok s) ->
                exists f, NewFilter key Equals v = Ok f).
Proof.
  assert (Ho : isValidSortOrder order = true
               <-> order ∈ [Ascending; Descending])
    by apply existsb_eqb_elem_of.
  split; [|split; [|split; [|split]]].
  - split.
    + intros H. unfold NewSort in H.
      destruct (isValidSortKey key); [|discriminate].
      destruct (isValidSortOrder order) eqn:Eo; [|discriminate].
      split; [reflexivity | apply Ho; reflexivity].
    + intros [Hk Hin]. unfold NewSort. rewrite Hk. apply Ho in Hin.
      rewrite Hin. reflexivity.
  - intros Hk. unfold NewSort. rewrite Hk. reflexivity.
  - intros Hk Hn. unfold NewSort. rewrite Hk.
    destruct (isValidSortOrder order) eqn:Eo;
      [exfalso; apply Hn, Ho; reflexivity | reflexivity].
  - reflexivity.
  - intros v [s Hs]. unfold NewSort in Hs.
    destruct (isValidSortKey key) eqn:Ek; [|discriminate].
    exists (mkFilter key Equals v). unfold NewFilter.
    change (isValidKey key) with (isValidSortKey key). rewrite Ek.
    reflexivity.
Qed.

Lemma NewSort_ok_iff_witness :
  NewSort SortByLocationCity Ascending
  = Ok (mkSort SortByLocationCity Ascending).
Proof.
  apply (proj1 (NewSort_ok_iff SortByLocationCity Ascending)).
  split; [reflexivity | set_solver].
Defined.

(** X10: the text of a sort determines the sort: two sorts built by
    [NewSort] that serialize to the same [key order] text are the same
    sort. *)
Theorem Sort_GetValue_injective (key1 key2 : SortKey)
  (order1 order2 : SortOrder) (s1 s2 : Sort) :
  NewSort key1 order1 = Ok s1 -> NewSort key2 order2 = Ok s2 ->
  Sort_GetValue s1 = Sort_GetValue s2 -> s1 = s2.
Proof.
  intros H1 H2.
  destruct (NewSort_inv _ _ _ H1) as (-> & Hk1 & Ho1).
  destruct (NewSort_inv _ _ _ H2) as (-> & Hk2 & Ho2).
  clear H1 H2. unfold Sort_GetValue. simpl.
  repeat (apply elem_of_cons in Ho1 as [->|Ho1]); [| |inversion Ho1];
  (repeat (apply elem_of_cons in Ho2 as [->|Ho2]); [| |inversion Ho2]);
  (repeat (apply elem_of_cons in Hk1 as [->|Hk1]); try solve [inversion Hk1]);
  (repeat (apply elem_of_cons in Hk2 as [->|Hk2]); try solve [inversion Hk2]);
  intros Heq; first [reflexivity | discriminate Heq].
Qed.

Lemma Sort_GetValue_injective_witness :
  Sort_GetValue (mkSort "name" "desc") = "name desc"
  /\ mkSort SortByName Descending = mkSort "name" "desc".
Proof.
  split; [reflexivity|].
  apply (Sort_GetValue_injective SortByName "name" Descending "desc");
    reflexivity.
Defined.

End SortsMore.

(** ** The token manager over successive calls *)

Section TokenManagerMore.
Import GoTime Sicclient.

Variable clock : nat -> Time.
Variable endpoint : nat -> Request -> RoundTrip.
Variable QueryEscape : string -> string.
Variable urlError : string -> option string.
Variable decodeTokenResponse : string -> result TokenResponse.

Local Abbreviation GenerateToken :=
  (Sicclient.GenerateToken clock endpoint QueryEscape urlError
     decodeTokenResponse).
Local Abbreviation GetToken :=
  (Sicclient.GetToken clock endpoint QueryEscape urlError
     decodeTokenResponse).
Local Abbreviation tokenRequest := (Sicclient.tokenRequest QueryEscape).

(** A successful token exchange: one request, one more reading of the
    clock, and the token of the response stored with its expiry. *)
Lemma GenerateToken_success_frame (tm tm' : TokenManager) (w w' : World) :
  GenerateToken tm w = (None, tm', w') ->
  exists code status body tokenResp,
    endpoint (length (sent w)) (tokenRequest tm) = Response code status body
    /\ decodeTokenResponse body = Ok tokenResp
    /\ tm' = mkTokenManager (config tm)
               (mkTokenInfo (AccessToken tokenResp)
                  (clock (clockReads w)
                   + Int64.wrap (ExpiresIn tokenResp * Second)))
    /\ w' = mkWorld (S (clockReads w)) (sent w ++ [tokenRequest tm]).
Proof.
  unfold Sicclient.GenerateToken, NewRequest, Do, Now, Add, Int64.mul.
  destruct (urlError (URL (config tm))) as [e|]; [discriminate|].
  cbn [Method Target Body sent clockReads].
  fold (tokenRequest tm).
  destruct (endpoint (length (sent w)) (tokenRequest tm))
    as [e|code status body] eqn:Hresp; [discriminate|].
  destruct (negb (code =? StatusOK)); [discriminate|].
  destruct (decodeTokenResponse body) as [tokenResp|e] eqn:Hdec;
    [|discriminate].
  intros [= <- <-]. exists code, status, body, tokenResp.
  repeat split; auto.
Qed.

Lemma GetToken_cases (tm : TokenManager) (w : World) :
  GetToken tm w
  = if After (clock (clockReads w)) (Expiry (tokenInfo tm))
    then match GenerateToken tm (tick w) with
         | (Some err, tm', w') => (Err err, tm', w')
         | (None, tm', w') => (Ok (Token (tokenInfo tm')), tm', w')
         end
    else (Ok (Token (tokenInfo tm)), tm, tick w).
Proof.
  unfold Sicclient.GetToken, Now, RefreshToken. fold (tick w).
  destruct (After (clock (clockReads w)) (Expiry (tokenInfo tm)));
    [|reflexivity].
  destruct (GenerateToken tm (tick w)) as [[[err|] tm'] w']; reflexivity.
Qed.

(** A returned token is the token the manager holds after the call. *)
Lemma GetToken_returns_stored (tm tm' : TokenManager) (w w' : World)
  (token : string) :
  GetToken tm w = (Ok token, tm', w') -> token = Token (tokenInfo tm').
Proof.
  rewrite GetToken_cases.
  destruct (After (clock (clockReads w)) (Expiry (tokenInfo tm))).
  - destruct (GenerateToken tm (tick w)) as [[[err|] tm2] w2];
      [discriminate|]. intros [= <- <- <-]. reflexivity.
  - intros [= <- <- <-]. reflexivity.
Qed.

(** X11: the footprint of one [GetToken].  The configuration of the
    manager never changes; at most one request is sent, and it is the POST
    of the form-encoded client credentials to the configured URL; the
    clock is read once, and a second time only when a token is stored.  A
    returned token is always the token the manager holds after the call,
    and the manager changes only when a token is returned. *)
Theorem GetToken_footprint (tm tm' : TokenManager) (w w' : World)
  (r : result string) :
  GetToken tm w = (r, tm', w') ->
  config tm' = config tm
  /\ (sent w' = sent w \/ sent w' = sent w ++ [tokenRequest tm])
  /\ tokenRequest tm
     = mkRequest "POST" (URL (config tm)) "application/x-www-form-urlencoded"
         ("client_id=" +:+ QueryEscape (ClientID (config tm))
          +:+ "&client_secret=" +:+ QueryEscape (ClientSecret (config tm))
          +:+ "&grant_type=" +:+ QueryEscape "client_credentials")
  /\ (clockReads w' = S (clockReads w)
      \/ (clockReads w' = S (S (clockReads w))
          /\ sent w' = sent w ++ [tokenRequest tm]
          /\ exists token, r = Ok token))
  /\ (forall token, r = Ok token -> token = Token (tokenInfo tm'))
  /\ (forall err, r = Err err -> tm' = tm /\ clockReads w' = S (clockReads w)).
Proof.
  rewrite GetToken_cases.
  destruct (After (clock (clockReads w)) (Expiry (tokenInfo tm))).
  - destruct (GenerateToken tm (tick w)) as [[[err|] tm1] w1] eqn:Hgen.
    + intros [= <- <- <-].
      destruct (GenerateToken_error_frame _ _ _ _ _ _ _ _ _ _ Hgen)
        as (-> & Hreads & Hsent).
      simpl in Hreads, Hsent. split; [reflexivity|].
      split; [exact Hsent|]. split; [reflexivity|].
      split; [left; exact Hreads|].
      split; [discriminate | intros err' _; auto].
    + intros [= <- <- <-].
      destruct (GenerateToken_success_frame _ _ _ _ Hgen)
        as (code & status & body & tokenResp & _ & _ & -> & ->).
      simpl. split; [reflexivity|]. split; [right; reflexivity|].
      split; [reflexivity|]. split; [right; eauto|].
      split; [intros token [= <-]; reflexivity | discriminate].
  - intros [= <- <- <-]. simpl. split; [reflexivity|].
    split; [left; reflexivity|]. split; [reflexivity|].
    split; [left; reflexivity|].
    split; [intros token [= <-]; reflexivity | discriminate].
Qed.

(** X12: two calls in a row.  After a [GetToken] that returned a token, a
    second [GetToken] whose reading of the clock is not past the stored
    expiry returns the same token, sends nothing and leaves the manager
    as it is; if its reading is past the stored expiry (as with a token
    response whose [expires_in] is 0 or negative, on a clock that moves)
    it runs the token exchange again. *)
Theorem GetToken_twice (tm tm1 : TokenManager) (w w1 : World)
  (token : string) :
  GetToken tm w = (Ok token, tm1, w1) ->
  (clock (clockReads w1) <= Expiry (tokenInfo tm1) ->
   GetToken tm1 w1 = (Ok token, tm1, tick w1))
  /\ (Expiry (tokenInfo tm1) < clock (clockReads w1) ->
      GetToken tm1 w1
      = match GenerateToken tm1 (tick w1) with
        | (Some err, tm', w') => (Err err, tm', w')
        | (None, tm', w') => (Ok (Token (tokenInfo tm')), tm', w')
        end)
  /\ (forall tokenResp code status body,
        After (clock (clockReads w)) (Expiry (tokenInfo tm)) = true ->
        endpoint (length (sent w)) (tokenRequest tm)
        = Response code status body ->
        decodeTokenResponse body = Ok tokenResp ->
        Expiry (tokenInfo tm1)
        = clock (S (clockReads w))
          + Int64.wrap (ExpiresIn tokenResp * Second)
        /\ clockReads w1 = S (S (clockReads w))).
Proof.
  intros Hrun.
  assert (Htoken : token = Token (tokenInfo tm1))
    by (eapply GetToken_returns_stored; exact Hrun).
  split; [|split].
  - intros Hle. rewrite GetToken_cases. unfold After.
    destruct (Z.ltb_spec (Expiry (tokenInfo tm1)) (clock (clockReads w1)));
      [lia|]. rewrite Htoken. reflexivity.
  - intros Hlt. rewrite GetToken_cases. unfold After.
    destruct (Z.ltb_spec (Expiry (tokenInfo tm1)) (clock (clockReads w1)));
      [reflexivity | lia].
  - intros tokenResp code status body Hexp Hresp Hdec.
    revert Hrun. rewrite GetToken_cases, Hexp.
    destruct (GenerateToken tm (tick w)) as [[[err|] tm2] w2] eqn:Hgen;
      [discriminate|].
    intros [= _ <- <-].
    destruct (GenerateToken_success_frame _ _ _ _ Hgen)
      as (code' & status' & body' & tokenResp' & Hresp' & Hdec' & -> & ->).
    simpl in Hresp'. rewrite Hresp in Hresp'. injection Hresp' as <- <- <-.
    rewrite Hdec in Hdec'. injection Hdec' as <-.
    simpl. auto.
Qed.

End TokenManagerMore.

Lemma GetToken_footprint_witness :
  let tm := Sicclient.NewTokenManager
              (Sicclient.mkTokenConfig "https://sic.example/token" "id" "secret") in
  let run := Sicclient.GetToken (fun n => 1000 + Z.of_nat n)
               (fun _ _ => Sicclient.TransportError "connection refused")
               (fun s => s) (fun _ => None) (fun _ => Err "EOF")
               tm (Sicclient.mkWorld 0 []) in
  Sicclient.config run.1.2 = Sicclient.config tm.
Proof.
  intros tm run.
  destruct run as [[r tm'] w'] eqn:Hrun.
  exact (proj1 (GetToken_footprint _ _ _ _ _ _ _ _ _ _ Hrun)).
Defined.

Lemma GetToken_twice_witness :
  let clock := fun n => 1000 + Z.of_nat n in
  let endpoint := fun (_ : nat) (_ : Sicclient.Request) =>
                    Sicclient.Response 200 "200 OK" "{}" in
  let decode := fun (_ : string) =>
                  Ok (Sicclient.mkTokenResponse "abc" "Bearer" 3600) in
  let cfg := Sicclient.mkTokenConfig "https://sic.example/token" "id"
               "secret" in
  let tm1 := Sicclient.mkTokenManager cfg
               (Sicclient.mkTokenInfo "abc" 3600000001001) in
  let w1 := Sicclient.mkWorld 2
              [Sicclient.tokenRequest (fun s => s)
                 (Sicclient.NewTokenManager cfg)] in
  Sicclient.GetToken clock endpoint (fun s => s) (fun _ => None) decode
    tm1 w1
  = (Ok "abc", tm1, Sicclient.tick w1).
Proof.
  intros clock endpoint decode cfg tm1 w1.
  apply (proj1 (GetToken_twice clock endpoint (fun s => s) (fun _ => None)
                  decode (Sicclient.NewTokenManager cfg) tm1
                  (Sicclient.mkWorld 0 []) w1 "abc" eq_refl)).
  vm_compute. discriminate.
Defined.

(** ** Time differences and the decay factor inside the score *)

Section ScoringMore.
Import Decay Weights Profile.
Local Open Scope R_scope.

Lemma Hours_exact (d : GoTime.Duration) :
  GoTime.Hours d = IZR d / (60 * 60 * 1e9).
Proof.
  unfold GoTime.Hours.
  pose proof (Z.quot_rem' d GoTime.Hour) as Hd.
  change GoTime.Hour with 3600000000000%Z in *.
  rewrite Hd at 3. rewrite plus_IZR, mult_IZR. field.
Qed.

Lemma Sub_exact (t u : GoTime.Time) :
  Int64.in_range (t - u) -> GoTime.Sub t u = (t - u)%Z.
Proof.
  unfold Int64.in_range, GoTime.Sub. intros [Hlo Hhi].
  destruct (Z.ltb_spec Int64.max_int (t - u)); [lia|].
  destruct (Z.ltb_spec (t - u) Int64.min_int); [lia | reflexivity].
Qed.

Lemma Sub_sign (t u : GoTime.Time) :
  ((u <= t)%Z -> (0 <= GoTime.Sub t u)%Z)
  /\ ((t < u)%Z -> (GoTime.Sub t u < 0)%Z).
Proof.
  unfold GoTime.Sub, Int64.max_int, Int64.min_int.
  destruct (Z.ltb_spec (2 ^ 63 - 1) (t - u));
    [|destruct (Z.ltb_spec (t - u) (- 2 ^ 63))]; split; lia.
Qed.

Lemma Hours_sign (d : GoTime.Duration) :
  ((0 <= d)%Z -> 0 <= GoTime.Hours d) /\ ((d < 0)%Z -> GoTime.Hours d < 0).
Proof.
  rewrite Hours_exact. split; intros Hd.
  - apply IZR_le in Hd. apply Rmult_le_pos; [exact Hd|].
    left. apply Rinv_0_lt_compat. lra.
  - apply IZR_lt in Hd.
    assert (0 < / (60 * 60 * 1e9)) by (apply Rinv_0_lt_compat; lra).
    unfold Rdiv. nra.
Qed.

(** X13: the time difference [CalculateDecayFactor] works with.  [Sub]
    gives the exact difference of two instants when it fits in an [int64]
    of nanoseconds and is held at the bounds otherwise; [Hours] divides the
    nanoseconds by 3.6e12 exactly.  Hence a point later than the latest
    time always gets the default decay 1, and a point not later than it
    gets the logistic value of a non-negative time difference. *)
Theorem CalculateDecayFactor_time (e : EmissionDataPoint)
  (params : DecayParameters) :
  (forall d, GoTime.Hours d = IZR d / (60 * 60 * 1e9))
  /\ (forall t u, Int64.in_range (t - u) -> GoTime.Sub t u = (t - u)%Z)
  /\ (forall t u, (Int64.max_int < t - u)%Z -> GoTime.Sub t u = Int64.max_int)
  /\ (forall t u, (t - u < Int64.min_int)%Z -> GoTime.Sub t u = Int64.min_int)
  /\ ((LatestTime params < Time e)%Z -> CalculateDecayFactor e params = 1)
  /\ ((Time e <= LatestTime params)%Z ->
      let dh := GoTime.Hours (GoTime.Sub (LatestTime params) (Time e)) in
      0 <= dh
      /\ CalculateDecayFactor e params
         = exp (- Decay.DecayRate params * dh)
           / (1 + exp (- Decay.DecayRate params * dh))).
Proof.
  split; [apply Hours_exact|]. split; [apply Sub_exact|].
  split; [|split; [|split]].
  - intros t u H. unfold GoTime.Sub.
    destruct (Z.ltb_spec Int64.max_int (t - u)); [reflexivity | lia].
  - intros t u H. unfold GoTime.Sub.
    destruct (Z.ltb_spec Int64.max_int (t - u));
      [unfold Int64.max_int, Int64.min_int in *; lia|].
    destruct (Z.ltb_spec (t - u) Int64.min_int); [reflexivity | lia].
  - intros Hlt. unfold CalculateDecayFactor, decayAt, Rleb.
    pose proof (proj2 (Sub_sign (LatestTime params) (Time e)) Hlt) as Hs.
    pose proof (proj2 (Hours_sign _) Hs) as Hh.
    destruct (Rle_dec 0 _); [lra | reflexivity].
  - intros Hle dh.
    pose proof (proj1 (Sub_sign (LatestTime params) (Time e)) Hle) as Hs.
    pose proof (proj1 (Hours_sign _) Hs) as Hh. fold dh in Hh.
    split; [exact Hh|]. unfold CalculateDecayFactor. fold dh.
    apply decayAt_nonneg, Hh.
Qed.

Lemma CalculateDecayFactor_time_witness :
  CalculateDecayFactor (mkEmissionDataPoint 3 7200%Z)
    (mkDecayParameters 3600%Z (1 / 10))
  = 1.
Proof.
  apply (proj1 (proj2 (proj2 (proj2 (proj2
           (CalculateDecayFactor_time (mkEmissionDataPoint 3 7200%Z)
              (mkDecayParameters 3600%Z (1 / 10)))))))).
  simpl. lia.
Defined.

Lemma decayAt_range (r dh : R) :
  0 <= r -> 0 <= dh -> 0 < decayAt r dh <= 1 / 2.
Proof.
  intros Hr Hdh. rewrite decayAt_nonneg by exact Hdh.
  pose proof (exp_pos (- r * dh)) as Hpos.
  assert (Hle : exp (- r * dh) <= 1) by (apply exp_le_1; nra).
  split; [apply logistic_pos, Hpos | apply logistic_le_half; assumption].
Qed.

Lemma decayFactor_range (first : EmissionDataPoint)
  (others : list EmissionDataPoint) (decayRate : R) (e : EmissionDataPoint) :
  0 <= decayRate -> e ∈ first :: others ->
  0 < decayFactor (referenceTime first others) decayRate e <= 1 / 2
  /\ (Time e = referenceTime first others ->
      decayFactor (referenceTime first others) decayRate e = 1 / 2).
Proof.
  intros Hr Hin. unfold decayFactor.
  destruct (referenceTime_is_max first others) as [Hall _].
  rewrite Forall_forall in Hall. specialize (Hall e Hin).
  pose proof (proj1 (Sub_sign (referenceTime first others) (Time e)) Hall).
  pose proof (proj1 (Hours_sign _) H) as Hh.
  split; [apply decayAt_range; assumption|].
  intros ->. rewrite Hours_Sub_same. apply decayAt_zero.
Qed.

Lemma weighted_sum_bounds (g : EmissionDataPoint -> R)
  (l : list EmissionDataPoint) :
  Forall (fun e => 0 < g e <= 1 / 2 /\ 0 <= Co2 e) l ->
  0 <= fold_right (fun e sum => g e * Co2 e + sum) 0 l
    <= 1 / 2 * fold_right (fun e sum => Co2 e + sum) 0 l.
Proof.
  induction 1 as [|e l [[Hg0 Hg1] Hc] _ IH]; simpl; [lra|]. nra.
Qed.

Lemma sum_nonneg (l : list EmissionDataPoint) :
  Forall (fun e => 0 <= Co2 e) l ->
  0 <= fold_right (fun e sum => Co2 e + sum) 0 l.
Proof. induction 1 as [|e l Hc _ IH]; simpl; lra. Qed.

(** X14: inside the score the default decay 1 is never used.  For a decay
    rate that is not negative, every point of a profile is weighted by a
    factor in [0, 0.5] against the latest timestamp, which no timestamp of
    the profile exceeds, and a point at the latest timestamp by exactly
    0.5; so with CO2 values and a weight that are not negative the
    decay-weighted term lies between 0 and the weight times the sum of the
    CO2 values. *)
Theorem calculateCO2WeightedScore_bounds (data : SustainabilityProfile)
  (co2Weight decayRate : R) :
  0 <= decayRate ->
  (forall first others e,
     Emissions data = first :: others -> e ∈ Emissions data ->
     let latest := latestTimeFrom (Time first) (Emissions data) in
     let factor := CalculateDecayFactor e
                     (NewDecayParameters latest decayRate) in
     (Time e <= latest)%Z /\ 0 <= factor <= 1 / 2
     /\ (Time e = latest -> factor = 1 / 2))
  /\ (0 <= co2Weight -> Forall (fun e => 0 <= Co2 e) (Emissions data) ->
      0 <= calculateCO2WeightedScore data co2Weight decayRate
        <= co2Weight
           * fold_right (fun e sum => Co2 e + sum) 0 (Emissions data)).
Proof.
  intros Hr. split.
  - intros first others e Hem Hin. rewrite Hem in *.
    rewrite latestTimeFrom_first. simpl.
    destruct (referenceTime_is_max first others) as [Hall _].
    rewrite Forall_forall in Hall. split; [apply Hall, Hin|].
    destruct (decayFactor_range first others decayRate e Hr Hin)
      as [[Hpos Hhalf] Hlatest].
    split; [split; [left; exact Hpos | exact Hhalf] | exact Hlatest].
  - intros Hw Hco2. pose proof (sum_nonneg _ Hco2) as Hsum.
    unfold calculateCO2WeightedScore.
    destruct (Emissions data) as [|first others] eqn:Hem; [simpl; lra|].
    rewrite latestTimeFrom_first. unfold weightedCO2From.
    rewrite (fold_left_sum
               (fun e => CalculateDecayFactor e
                           (NewDecayParameters (referenceTime first others)
                              decayRate) * Co2 e)).
    rewrite Rplus_0_l.
    pose proof (weighted_sum_bounds
                  (decayFactor (referenceTime first others) decayRate)
                  (first :: others)) as Hb.
    assert (Hall : Forall (fun e =>
                     0 < decayFactor (referenceTime first others) decayRate e
                     <= 1 / 2 /\ 0 <= Co2 e) (first :: others)).
    { rewrite Forall_forall in *. intros e Hin. split; [|apply Hco2, Hin].
      apply (decayFactor_range first others decayRate e Hr Hin). }
    specialize (Hb Hall). unfold decayFactor in Hb.
    unfold CalculateDecayFactor, NewDecayParameters. simpl in *. nra.
Qed.

Lemma calculateCO2WeightedScore_bounds_witness :
  0 <= calculateCO2WeightedScore
         (mkSustainabilityProfile
            [mkEmissionDataPoint 4 0%Z; mkEmissionDataPoint 2 7200%Z] 10 5)
         2 (1 / 10)
    <= 2 * (4 + (2 + 0)).
Proof.
  apply (proj2 (calculateCO2WeightedScore_bounds
                  (mkSustainabilityProfile
                     [mkEmissionDataPoint 4 0%Z; mkEmissionDataPoint 2 7200%Z]
                     10 5) 2 (1 / 10) ltac:(lra)));
    [lra | repeat constructor; simpl; lra].
Defined.

End ScoringMore.

(** ** The score as a function of the profile and of the weights *)

Section ScoreAlgebra.
Import Decay Weights Profile.
Local Open Scope R_scope.

Lemma referenceTime_Permutation (first first' : EmissionDataPoint)
  (others others' : list EmissionDataPoint) :
  Permutation (first :: others) (first' :: others') ->
  referenceTime first others = referenceTime first' others'.
Proof.
  intros Hp.
  destruct (referenceTime_is_max first others) as [Hall Hex].
  destruct (referenceTime_is_max first' others') as [Hall' Hex'].
  rewrite Hp in Hall. rewrite <- Hp in Hall'.
  rewrite Forall_forall in Hall, Hall'.
  rewrite Exists_exists in Hex, Hex'.
  destruct Hex as (e & Hin & He). destruct Hex' as (e' & Hin' & He').
  specialize (Hall e' Hin'). specialize (Hall' e Hin). lia.
Qed.

(** X15: the latest timestamp that the first loop of
    [calculateCO2WeightedScore] finds does not depend on the order of the
    emission points, nor on the point that comes first and seeds the scan.
    A profile whose points are reordered therefore weights every point by
    the same decay factor and adds the same terms [decayFactor * co2],
    only in another order.  (Nothing is stated of the sum itself, which
    the code accumulates in [float64] in the order of the points.) *)
Theorem latestTime_order_independent (first first' : EmissionDataPoint)
  (others others' : list EmissionDataPoint) (decayRate : R) :
  Permutation (first :: others) (first' :: others') ->
  let latest := latestTimeFrom (Time first) (first :: others) in
  let latest' := latestTimeFrom (Time first') (first' :: others') in
  let term := fun latestTime e =>
    CalculateDecayFactor e (NewDecayParameters latestTime decayRate)
    * Co2 e in
  latest = latest'
  /\ (forall e, term latest e = term latest' e)
  /\ Permutation (map (term latest) (first :: others))
                 (map (term latest') (first' :: others')).
Proof.
  intros Hp latest latest' term.
  assert (Heq : latest = latest').
  { subst latest latest'. rewrite !latestTimeFrom_first.
    apply referenceTime_Permutation, Hp. }
  split; [exact Heq|]. rewrite <- Heq.
  split; [reflexivity|]. apply Permutation_map, Hp.
Qed.

Lemma latestTime_order_independent_witness :
  latestTimeFrom 0%Z
    [mkEmissionDataPoint 1 0%Z; mkEmissionDataPoint 2 7200%Z]
  = latestTimeFrom 7200%Z
      [mkEmissionDataPoint 2 7200%Z; mkEmissionDataPoint 1 0%Z].
Proof.
  apply (proj1 (latestTime_order_independent
                  (mkEmissionDataPoint 1 0%Z) (mkEmissionDataPoint 2 7200%Z)
                  [mkEmissionDataPoint 2 7200%Z] [mkEmissionDataPoint 1 0%Z]
                  (1 / 10) (perm_swap _ _ _))).
Defined.

(** X17: for weights and a decay rate that are not negative and a profile
    whose CO2 values, total CO2 and total cost are not negative, the score
    is not negative and is at least the total-CO2 term. *)
Theorem CalculateScore_nonneg (data : SustainabilityProfile)
  (weights : SustainabilityWeights) :
  0 <= CO2DecayWeight weights -> 0 <= TotalCO2Weight weights ->
  0 <= CostWeight weights -> 0 <= Weights.DecayRate weights ->
  Forall (fun e => 0 <= Co2 e) (Emissions data) ->
  0 <= TotalCo2 data -> 0 <= TotalCost data ->
  0 <= TotalCO2Weight weights * TotalCo2 data <= CalculateScore data weights.
Proof.
  intros Ha Hb Hc Hr Hco2 Htot Hcost.
  unfold CalculateScore, calculateTotalCO2WeightedScore,
    calculateCostWeightedScore.
  assert (Hdecay : 0 <= calculateCO2WeightedScore data
                          (CO2DecayWeight weights) (Weights.DecayRate weights)).
  { unfold calculateCO2WeightedScore.
    destruct (Emissions data) as [|first others] eqn:Hem; [lra|].
    rewrite latestTimeFrom_first. unfold weightedCO2From.
    rewrite (fold_left_sum
               (fun e => CalculateDecayFactor e
                           (NewDecayParameters (referenceTime first others)
                              (Weights.DecayRate weights)) * Co2 e)).
    rewrite Rplus_0_l.
    assert (Hall : Forall (fun e =>
                     0 < decayFactor (referenceTime first others)
                           (Weights.DecayRate weights) e <= 1 / 2
                     /\ 0 <= Co2 e) (first :: others)).
    { rewrite Forall_forall in *. intros e Hin. split; [|apply Hco2, Hin].
      apply (decayFactor_range first others _ e Hr Hin). }
    pose proof (weighted_sum_bounds _ _ Hall) as Hbd.
    unfold decayFactor in Hbd.
    unfold CalculateDecayFactor, NewDecayParameters. simpl in *. nra. }
  assert (Hinv : 0 < / (1 + TotalCost data))
    by (apply Rinv_0_lt_compat; lra).
  assert (0 <= CostWeight weights / (1 + TotalCost data))
    by (unfold Rdiv; nra).
  split; [nra | lra].
Qed.

Lemma CalculateScore_nonneg_witness :
  0 <= 1 * 10
    <= CalculateScore
         (mkSustainabilityProfile [mkEmissionDataPoint 3 7200%Z] 10 5)
         (mkSustainabilityWeights 2 1 1 (1 / 10)).
Proof.
  apply (CalculateScore_nonneg
           (mkSustainabilityProfile [mkEmissionDataPoint 3 7200%Z] 10 5)
           (mkSustainabilityWeights 2 1 1 (1 / 10))); simpl; try lra.
  repeat constructor. simpl. lra.
Defined.

End ScoreAlgebra.

(** ** The plugin: configuration check, data points and node score *)

Section PluginMore.
Import Sicresponse Plugin Framework.
Local Open Scope R_scope.

Lemma eqb_empty_false (s : string) : String.eqb s "" = false <-> s <> "".
Proof.
  destruct (String.eqb_spec s ""); split; congruence.
Qed.



End PluginMore.

Section ScoreMore.
Import Sicresponse Plugin Framework.

Variable parseRFC3339 : string -> result GoTime.Time.

(** X19: [calculateSustainabilityScore] reads the first entity of the
    response and nothing else of it: the score is the formula of the model
    on the data points with that entity's CO2 and cost as totals, whatever
    the other entities, the counts or the entity's energy figure are; a
    null CO2 or cost counts as 0, so that with both null the score is the
    decay-weighted term plus the cost weight. *)
Theorem calculateSustainabilityScore_first_entity (config : Config)
  (item : UsageEntity) (others : list UsageEntity) (count total offset : Z)
  (dataPoints : list Decay.EmissionDataPoint) :
  let w := sustainabilityWeights config in
  let decayTerm :=
    (CO2DecayWeight w * Profile.decayedSum dataPoints (DecayRate w))%R in
  calculateSustainabilityScore config
    (mkUsageByEntityResponse (item :: others) count total offset) dataPoints
  = (decayTerm + TotalCO2Weight w * GetCo2eMetricTon item
     + CostWeight w / (1 + GetCostUsd item))%R
  /\ (Co2eMetricTon item = None -> CostUsd item = None ->
      calculateSustainabilityScore config
        (mkUsageByEntityResponse (item :: others) count total offset)
        dataPoints
      = (decayTerm + CostWeight w)%R).
Proof.
  intros w decayTerm.
  assert (Heq : calculateSustainabilityScore config
                  (mkUsageByEntityResponse (item :: others) count total offset)
                  dataPoints
                = (decayTerm + TotalCO2Weight w * GetCo2eMetricTon item
                   + CostWeight w / (1 + GetCostUsd item))%R).
  { unfold calculateSustainabilityScore. simpl.
    rewrite CalculateScore_score_spec. reflexivity. }
  split; [exact Heq|].
  intros Hco2 Hcost. rewrite Heq. unfold GetCo2eMetricTon, GetCostUsd.
  rewrite Hco2, Hcost. field.
Qed.

Lemma calculateSustainabilityScore_first_entity_witness :
  calculateSustainabilityScore
    (mkConfig (mkTimeSeriesConfig 7%R "hour")
       (mkSustainabilityWeights 2%R 1%R 3%R (1 / 10)%R) "serial")
    (mkUsageByEntityResponse [mkUsageEntity "SN1" None None (Some 5%R)] 1 1 0)
    []
  = (2 * Profile.decayedSum [] (1 / 10) + 3)%R.
Proof.
  apply (proj2 (calculateSustainabilityScore_first_entity
                  (mkConfig (mkTimeSeriesConfig 7%R "hour")
                     (mkSustainabilityWeights 2%R 1%R 3%R (1 / 10)%R)
                     "serial")
                  (mkUsageEntity "SN1" None None (Some 5%R)) [] 1 1 0 []));
    reflexivity.
Defined.

(** What [buildEmissionDataPoints] makes of one series item. *)
Lemma buildEmissionDataPoints_loop_ok
  (items : list UsageSeriesItem) (acc dataPoints : list Decay.EmissionDataPoint) :
  buildEmissionDataPoints_loop parseRFC3339 items acc = Ok dataPoints
  <-> exists new,
        dataPoints = acc ++ new
        /\ Forall2 (fun item dp =>
                      parseRFC3339 (TimeBucket item) = Ok (Decay.Time dp)
                      /\ Decay.Co2 dp = Series_GetCo2eMetricTon item)
             items new.
Proof.
  revert acc. induction items as [|item items IH]; intros acc; simpl.
  - split.
    + intros [= <-]. exists []. rewrite app_nil_r. split; [reflexivity|].
      constructor.
    + intros (new & -> & Hall). inversion Hall. rewrite app_nil_r.
      reflexivity.
  - unfold GetTimeBucket.
    destruct (parseRFC3339 (TimeBucket item)) as [t|e] eqn:Hparse.
    + rewrite IH. split.
      * intros (new & -> & Hall).
        exists (Decay.mkEmissionDataPoint (Series_GetCo2eMetricTon item) t
                  :: new).
        rewrite <- app_assoc. split; [reflexivity|].
        constructor; [split; [exact Hparse | reflexivity] | exact Hall].
      * intros (new & -> & Hall).
        inversion Hall as [|? dp ? new' [Ht Hc] Hall']; subst.
        exists new'. split; [|exact Hall'].
        rewrite <- app_assoc. simpl. do 2 f_equal.
        destruct dp as [co2 t']. simpl in *. congruence.
    + split; [discriminate|].
      intros (new & _ & Hall).
      inversion Hall as [|? dp ? new' [Ht Hc] Hall']; subst. congruence.
Qed.

Lemma buildEmissionDataPoints_loop_err
  (pre : list UsageSeriesItem) (bad : UsageSeriesItem)
  (post : list UsageSeriesItem) (acc : list Decay.EmissionDataPoint)
  (e : string) :
  Forall (fun item => exists t, parseRFC3339 (TimeBucket item) = Ok t) pre ->
  parseRFC3339 (TimeBucket bad) = Err e ->
  buildEmissionDataPoints_loop parseRFC3339 (pre ++ bad :: post) acc
  = Err ("error retrieving time bucket: " +:+ ("error parsing time: " +:+ e)).
Proof.
  intros Hpre Hbad. revert acc.
  induction Hpre as [|item pre [t Ht] _ IH]; intros acc; simpl.
  - unfold GetTimeBucket. rewrite Hbad. reflexivity.
  - unfold GetTimeBucket. rewrite Ht. apply IH.
Qed.

(** X20: [buildEmissionDataPoints] succeeds exactly when every time bucket
    of the series parses, and then returns one data point per item, in
    order, with the parsed time and the item's CO2 (0 when null); when a
    bucket does not parse it returns the error of the first such item and
    no data points, whatever follows. *)
Theorem buildEmissionDataPoints_all_or_nothing
  (usageSeries : UsageSeriesResponse) :
  (forall dataPoints,
     buildEmissionDataPoints parseRFC3339 usageSeries = Ok dataPoints
     <-> Forall2 (fun item dp =>
                    parseRFC3339 (TimeBucket item) = Ok (Decay.Time dp)
                    /\ Decay.Co2 dp = Series_GetCo2eMetricTon item)
           (SItems usageSeries) dataPoints)
  /\ (forall dataPoints,
        buildEmissionDataPoints parseRFC3339 usageSeries = Ok dataPoints ->
        length dataPoints = length (SItems usageSeries))
  /\ (forall pre bad post e,
        SItems usageSeries = pre ++ bad :: post ->
        Forall (fun item => exists t, parseRFC3339 (TimeBucket item) = Ok t)
          pre ->
        parseRFC3339 (TimeBucket bad) = Err e ->
        buildEmissionDataPoints parseRFC3339 usageSeries
        = Err ("error retrieving time bucket: "
               +:+ ("error parsing time: " +:+ e))).
Proof.
  assert (Hiff : forall dataPoints,
            buildEmissionDataPoints parseRFC3339 usageSeries = Ok dataPoints
            <-> Forall2 (fun item dp =>
                           parseRFC3339 (TimeBucket item) = Ok (Decay.Time dp)
                           /\ Decay.Co2 dp = Series_GetCo2eMetricTon item)
                  (SItems usageSeries) dataPoints).
  { intros dataPoints. unfold buildEmissionDataPoints.
    rewrite buildEmissionDataPoints_loop_ok. simpl. split.
    - intros (new & -> & Hall). exact Hall.
    - intros Hall. exists dataPoints. auto. }
  split; [exact Hiff|]. split.
  - intros dataPoints Hok. apply Hiff in Hok.
    symmetry. eapply Forall2_length. exact Hok.
  - intros pre bad post e Hitems Hpre Hbad. unfold buildEmissionDataPoints.
    rewrite Hitems. apply buildEmissionDataPoints_loop_err; assumption.
Qed.

End ScoreMore.

Lemma buildEmissionDataPoints_all_or_nothing_witness :
  Plugin.buildEmissionDataPoints
    (fun s => if String.eqb s "bad" then Err "cannot parse" else Ok 7200%Z)
    (Sicresponse.mkUsageSeriesResponse
       [Sicresponse.mkUsageSeriesItem "2024-01-01T00:00:00Z" None (Some 1%R)
          None;
        Sicresponse.mkUsageSeriesItem "bad" None None None] 2)
  = Err "error retrieving time bucket: error parsing time: cannot parse".
Proof.
  apply (proj2 (proj2 (buildEmissionDataPoints_all_or_nothing
                         (fun s => if String.eqb s "bad"
                                   then Err "cannot parse" else Ok 7200%Z)
                         (Sicresponse.mkUsageSeriesResponse
                            [Sicresponse.mkUsageSeriesItem
                               "2024-01-01T00:00:00Z" None (Some 1%R) None;
                             Sicresponse.mkUsageSeriesItem "bad" None None
                               None] 2)))
           [Sicresponse.mkUsageSeriesItem "2024-01-01T00:00:00Z" None
              (Some 1%R) None]
           (Sicresponse.mkUsageSeriesItem "bad" None None None) []
           "cannot parse").
  - reflexivity.
  - repeat constructor. eexists. reflexivity.
  - reflexivity.
Defined.

(** ** The node score *)

Section NodeScore.
Import Sicresponse Plugin Framework.

(** X21: [buildSicParams] never fails: for every serial number it returns
    the parameters holding the single equality filter on
    [entitySerialNum], and these serialize, in any store and without
    changing it, to the one query value
    [filter = entitySerialNum eq '<serial>'] (the serial number is not
    escaped). *)
Theorem buildSicParams_total (serialNum : string) (h : Sicparams.store) :
  buildSicParams serialNum
  = Ok (Sicparams.AddFilter Sicparams.NewParams
          (Sicparams.mkFilter Sicparams.EntitySerialNum Sicparams.Equals
             (Sicparams.VString serialNum)))
  /\ (forall params,
        buildSicParams serialNum = Ok params ->
        Sicparams.ToQueryParams params h
        = (Returns {[ "filter"
                      := ["entitySerialNum eq '" +:+ serialNum +:+ "'"] ]},
           h)).
Proof.
  split; [reflexivity|]. intros params [= <-].
  unfold Sicparams.ToQueryParams. simpl.
  unfold Sicparams.Values_Add. rewrite lookup_empty. simpl.
  rewrite insert_empty. reflexivity.
Qed.

Lemma buildSicParams_total_witness :
  Sicparams.ToQueryParams
    (Sicparams.AddFilter Sicparams.NewParams
       (Sicparams.mkFilter Sicparams.EntitySerialNum Sicparams.Equals
          (Sicparams.VString "ABC123")))
    ∅
  = (Returns {[ "filter" := ["entitySerialNum eq 'ABC123'"] ]}, ∅).
Proof.
  apply (proj2 (buildSicParams_total "ABC123" ∅)). reflexivity.
Defined.

(** X22: the outcomes of [Score].  A score is reported with an error only
    as 0.  A node that is not found or that lacks the label is scored 0
    with [Success], whatever the telemetry calls and the parser would
    answer.  Any other lookup error, a failed telemetry call and a time
    bucket that does not parse each give 0 with that error, the last one
    even when the usage-by-entity response is empty.  Otherwise the status
    is [Success]. *)
Theorem Score_outcomes
  (parseRFC3339 : string -> result GoTime.Time)
  (GetNodeLabelValue : string -> string -> LabelLookup)
  (fetchSicData : Sicparams.Params ->
                  result (UsageByEntityResponse * UsageSeriesResponse))
  (config : Config) (nodeName : string) :
  let run := Plugin.Score parseRFC3339 GetNodeLabelValue fetchSicData config
               nodeName in
  let lookup := GetNodeLabelValue nodeName (SerialNumLabel config) in
  let paramsOf := fun serialNum =>
    Sicparams.AddFilter Sicparams.NewParams
      (Sicparams.mkFilter Sicparams.EntitySerialNum Sicparams.Equals
         (Sicparams.VString serialNum)) in
  (forall e, run.2 = Error e -> run.1 = 0)
  /\ (lookup = ErrNodeNotFound \/ lookup = ErrLabelNotFound ->
      forall parse' fetch',
        Plugin.Score parse' GetNodeLabelValue fetch' config nodeName
        = (0, Success))
  /\ (forall e, lookup = LookupError e -> run = (0, Error e))
  /\ (forall serialNum e,
        lookup = LabelValue serialNum ->
        fetchSicData (paramsOf serialNum) = Err e ->
        run = (0, Error e))
  /\ (forall serialNum usageByEntity usageSeries e,
        lookup = LabelValue serialNum ->
        fetchSicData (paramsOf serialNum) = Ok (usageByEntity, usageSeries) ->
        buildEmissionDataPoints parseRFC3339 usageSeries = Err e ->
        run = (0, Error e))
  /\ (forall serialNum usageByEntity usageSeries dataPoints,
        lookup = LabelValue serialNum ->
        fetchSicData (paramsOf serialNum) = Ok (usageByEntity, usageSeries) ->
        buildEmissionDataPoints parseRFC3339 usageSeries = Ok dataPoints ->
        run.2 = Success).
Proof.
  intros run lookup paramsOf. subst run lookup paramsOf.
  unfold Plugin.Score.
  change (buildSicParams ?s) with
    (Ok (Sicparams.AddFilter Sicparams.NewParams
           (Sicparams.mkFilter Sicparams.EntitySerialNum Sicparams.Equals
              (Sicparams.VString s)))).
  split; [|split; [|split; [|split; [|split]]]].
  - intros e.
    destruct (GetNodeLabelValue nodeName (SerialNumLabel config))
      as [serialNum| | |e']; try (simpl; reflexivity || discriminate).
    destruct (fetchSicData _) as [[usageByEntity usageSeries]|e'];
      [|reflexivity].
    destruct (buildEmissionDataPoints parseRFC3339 usageSeries);
      [discriminate | reflexivity].
  - intros [Hl|Hl] parse' fetch'; rewrite Hl; reflexivity.
  - intros e ->. reflexivity.
  - intros serialNum e -> ->. reflexivity.
  - intros serialNum usageByEntity usageSeries e -> -> ->. reflexivity.
  - intros serialNum usageByEntity usageSeries dataPoints -> -> ->.
    reflexivity.
Qed.

End NodeScore.

(** ** The telemetry client *)

Section ClientFacts.
Import GoTime Sicclient SicApi.

Variable clock : nat -> Time.
Variable endpoint : nat -> Request -> RoundTrip.
Variable QueryEscape : string -> string.
Variable urlError : string -> option string.
Variable decodeTokenResponse : string -> result TokenResponse.
Variable api : nat -> ApiRequest -> ApiReply.
Variable Encode : Sicparams.Values -> string.
Variable A : Type.
Variable decode : string -> result A.

Local Abbreviation GetToken :=
  (Sicclient.GetToken clock endpoint QueryEscape urlError
     decodeTokenResponse).
Local Abbreviation doGetRequest :=
  (SicApi.doGetRequest clock endpoint QueryEscape urlError
     decodeTokenResponse api A decode).
Local Abbreviation getUsage :=
  (SicApi.getUsage clock endpoint QueryEscape urlError decodeTokenResponse
     api Encode A decode).
Local Abbreviation GetUsageByEntity :=
  (SicApi.GetUsageByEntity clock endpoint QueryEscape urlError
     decodeTokenResponse api Encode A decode).
Local Abbreviation GetUsageSeries :=
  (SicApi.GetUsageSeries clock endpoint QueryEscape urlError
     decodeTokenResponse api Encode A decode).

(** X23: the footprint of [doGetRequest].  The token manager and its
    world are left as [GetToken] leaves them; at most one telemetry request
    is sent, and it is the GET of the URL with the header
    [Authorization: Bearer <token>], the token being the one the manager
    holds after the call; a response is returned only when that request
    was answered with status 200 and a body that decodes to it. *)
Theorem doGetRequest_footprint (c c' : Client) (apiURL : string) (n n' : Net)
  (r : result A) :
  doGetRequest c apiURL n = (r, c', n') ->
  let req := mkApiRequest "GET" apiURL
               ("Bearer " +:+ Token (tokenInfo (tokenManager c'))) in
  hostname c' = hostname c
  /\ (exists t, GetToken (tokenManager c) (tokenWorld n)
                = (t, tokenManager c', tokenWorld n'))
  /\ (apiSent n' = apiSent n \/ apiSent n' = apiSent n ++ [req])
  /\ (forall response, r = Ok response ->
        apiSent n' = apiSent n ++ [req]
        /\ exists status text,
             api (length (apiSent n)) req = ApiResponse StatusOK status (Ok text)
             /\ decode text = Ok response).
Proof.
  unfold SicApi.doGetRequest.
  destruct (GetToken (tokenManager c) (tokenWorld n)) as [[[token|err] tm] w]
    eqn:Htoken.
  - assert (Htok : token = Token (tokenInfo tm)).
    { eapply GetToken_returns_stored. exact Htoken. }
    subst token.
    destruct (urlError apiURL) as [e|].
    + intros [= <- <- <-]. simpl. repeat split; eauto; congruence.
    + destruct (api (length (apiSent n))
                  (mkApiRequest "GET" apiURL
                     ("Bearer " +:+ Token (tokenInfo tm))))
        as [e|code status body] eqn:Hapi.
      * intros [= <- <- <-]. simpl. repeat split; eauto; congruence.
      * destruct (Z.eqb_spec code StatusOK) as [->|Hcode]; simpl.
        -- destruct body as [text|e].
           ++ destruct (decode text) as [response|e] eqn:Hdec.
              ** intros [= <- <- <-]. simpl.
                 split; [reflexivity|]. split; [eauto|].
                 split; [right; reflexivity|].
                 intros response' [= <-]. split; [reflexivity|].
                 exists status, text. auto.
              ** intros [= <- <- <-]. simpl. repeat split; eauto;
                   congruence.
           ++ intros [= <- <- <-]. simpl. repeat split; eauto; congruence.
        -- destruct body as [text|e]; intros [= <- <- <-]; simpl;
             repeat split; eauto; congruence.
  - intros [= <- <- <-]. simpl. repeat split; eauto; congruence.
Qed.

(** X24: the failures of [doGetRequest].  When the token cannot be
    obtained no telemetry request is sent and the error says so.  With a
    token and a URL that parses, a transport error, a status other than
    200 and a body that does not decode each give an error after the one
    request; the error for a status other than 200 carries the status line
    and the text of the body. *)
Theorem doGetRequest_failures (c : Client) (apiURL : string) (n : Net) :
  (forall err tm w,
     GetToken (tokenManager c) (tokenWorld n) = (Err err, tm, w) ->
     doGetRequest c apiURL n
     = (Err ("failed to get access token: " +:+ err),
        mkClient (hostname c) tm, mkNet w (apiSent n)))
  /\ (forall token tm w,
        GetToken (tokenManager c) (tokenWorld n) = (Ok token, tm, w) ->
        urlError apiURL = None ->
        let req := mkApiRequest "GET" apiURL ("Bearer " +:+ token) in
        let after := (mkClient (hostname c) tm,
                      mkNet w (apiSent n ++ [req])) in
        (forall e, api (length (apiSent n)) req = ApiTransportError e ->
           doGetRequest c apiURL n
           = (Err ("API request failed: " +:+ e), after.1, after.2))
        /\ (forall code status text,
              api (length (apiSent n)) req
              = ApiResponse code status (Ok text) ->
              code <> StatusOK ->
              doGetRequest c apiURL n
              = (Err ("API returned status " +:+ status +:+ ": " +:+ text),
                 after.1, after.2))
        /\ (forall status text e,
              api (length (apiSent n)) req
              = ApiResponse StatusOK status (Ok text) ->
              decode text = Err e ->
              doGetRequest c apiURL n
              = (Err ("failed to unmarshal response: " +:+ e),
                 after.1, after.2))).
Proof.
  split.
  - intros err tm w Htoken. unfold SicApi.doGetRequest. rewrite Htoken.
    reflexivity.
  - intros token tm w Htoken Hurl req after.
    unfold SicApi.doGetRequest. rewrite Htoken, Hurl. fold req.
    split; [|split].
    + intros e ->. reflexivity.
    + intros code status text -> Hcode.
      destruct (Z.eqb_spec code StatusOK); [contradiction | reflexivity].
    + intros status text e -> ->. reflexivity.
Qed.

(** X25: the URL and the order of effects of [GetUsageByEntity] and
    [GetUsageSeries].  Without parameters the request goes to the path
    with the escaped start and end time (and interval) and the store is
    untouched.  With parameters their encoded query values are appended
    after [&] and the store is the one their serialization left.  When the
    serialization panics, the panic comes before any token or telemetry
    request: client and network are unchanged. *)
Theorem getUsage_order (c : Client) (startTime endTime interval : string)
  (h : Sicparams.store) (n : Net) :
  let entityURL :=
    "https://" +:+ hostname c
    +:+ "/sustainability-insight-ctr/v1beta1/usage-by-entity?start-time="
    +:+ QueryEscape startTime +:+ "&end-time=" +:+ QueryEscape endTime in
  let seriesURL :=
    "https://" +:+ hostname c
    +:+ "/sustainability-insight-ctr/v1beta1/usage-series?start-time="
    +:+ QueryEscape startTime +:+ "&end-time=" +:+ QueryEscape endTime
    +:+ "&interval=" +:+ QueryEscape interval in
  let sends := fun apiURL h' (run : outcome (result A) * Sicparams.store
                                    * Client * Net) =>
    run = (Returns (doGetRequest c apiURL n).1.1, h',
           (doGetRequest c apiURL n).1.2, (doGetRequest c apiURL n).2) in
  sends entityURL h (GetUsageByEntity c startTime endTime None h n)
  /\ sends seriesURL h (GetUsageSeries c startTime endTime interval None h n)
  /\ (forall p q h',
        Sicparams.ToQueryParams p h = (Returns q, h') ->
        sends (entityURL +:+ "&" +:+ Encode q) h'
          (GetUsageByEntity c startTime endTime (Some p) h n)
        /\ sends (seriesURL +:+ "&" +:+ Encode q) h'
             (GetUsageSeries c startTime endTime interval (Some p) h n))
  /\ (forall p msg h',
        Sicparams.ToQueryParams p h = (Panics msg, h') ->
        GetUsageByEntity c startTime endTime (Some p) h n
        = (Panics msg, h', c, n)
        /\ GetUsageSeries c startTime endTime interval (Some p) h n
           = (Panics msg, h', c, n)).
Proof.
  intros entityURL seriesURL sends. subst sends.
  unfold SicApi.GetUsageByEntity, SicApi.GetUsageSeries, SicApi.getUsage,
    withParams, usageByEntityURL, usageSeriesURL.
  fold entityURL. fold seriesURL.
  split; [|split; [|split]].
  - destruct (doGetRequest c entityURL n) as [[r c'] n']. reflexivity.
  - destruct (doGetRequest c seriesURL n) as [[r c'] n']. reflexivity.
  - intros p q h' ->. split.
    + destruct (doGetRequest c (entityURL +:+ "&" +:+ Encode q) n)
        as [[r c'] n']. reflexivity.
    + destruct (doGetRequest c (seriesURL +:+ "&" +:+ Encode q) n)
        as [[r c'] n']. reflexivity.
  - intros p msg h' ->. split; reflexivity.
Qed.

End ClientFacts.

Lemma doGetRequest_footprint_witness :
  let c := SicApi.mkClient "sic.example"
             (Sicclient.mkTokenManager
                (Sicclient.mkTokenConfig "https://sic.example/token" "id"
                   "secret")
                (Sicclient.mkTokenInfo "abc" 5000)) in
  let n := SicApi.mkNet (Sicclient.mkWorld 0 []) [] in
  let run := SicApi.doGetRequest (fun n => 1000 + Z.of_nat n)
               (fun _ _ => Sicclient.TransportError "unused")
               (fun s => s) (fun _ => None) (fun _ => Err "unused")
               (fun _ _ => SicApi.ApiResponse 200 "200 OK" (Ok "{}"))
               unit (fun _ => Ok tt) c
               "https://sic.example/usage" n in
  SicApi.apiSent run.2 = SicApi.apiSent n
  \/ SicApi.apiSent run.2
     = SicApi.apiSent n
       ++ [SicApi.mkApiRequest "GET" "https://sic.example/usage"
             ("Bearer "
              +:+ Sicclient.Token
                    (Sicclient.tokenInfo (SicApi.tokenManager run.1.2)))].
Proof.
  intros c n run. destruct run as [[r c'] n'] eqn:Hrun.
  exact (proj1 (proj2 (proj2
           (doGetRequest_footprint _ _ _ _ _ _ _ _ _ _ _ _ _ _ Hrun)))).
Defined.

(** ** The cluster's node labels *)

Section KubeinfoFacts.
Import Kubeinfo Plugin Framework.

(** X26: [GetNodeLabelValue] agrees with [GetNodeLabels]: it returns a
    value exactly when the node's labels hold it under the label, reports
    [ErrNodeNotFound] exactly when [GetNodeLabels] does, and
    [ErrLabelNotFound] exactly when the node is found without the label.  A
    label present with the empty string is returned as a value, not as a
    miss.  [Score] on a node that is missing or lacks the serial-number
    label is therefore 0 with [Success]. *)
Theorem GetNodeLabelValue_agrees (Get : string -> NodeGet)
  (nodeName label : string) :
  (forall value,
     GetNodeLabelValue Get nodeName label = LabelValue value
     <-> exists labels, GetNodeLabels Get nodeName = Labels labels
                        /\ labels !! label = Some value)
  /\ (GetNodeLabelValue Get nodeName label = ErrNodeNotFound
      <-> GetNodeLabels Get nodeName = LabelsNodeNotFound)
  /\ (GetNodeLabelValue Get nodeName label = ErrLabelNotFound
      <-> exists labels, GetNodeLabels Get nodeName = Labels labels
                         /\ labels !! label = None)
  /\ (forall labels,
        Get nodeName = NodeFound labels -> labels !! label = Some "" ->
        GetNodeLabelValue Get nodeName label = LabelValue "")
  /\ (forall parseRFC3339 fetchSicData config,
        SerialNumLabel config = label ->
        Get nodeName = NodeMissing
        \/ (exists labels, Get nodeName = NodeFound labels
                           /\ labels !! label = None) ->
        Plugin.Score parseRFC3339 (GetNodeLabelValue Get) fetchSicData config
          nodeName
        = (0, Success)).
Proof.
  unfold GetNodeLabelValue, GetNodeLabels.
  split; [|split; [|split; [|split]]].
  - intros value. destruct (Get nodeName) as [labels| |e].
    + destruct (labels !! label) as [v|] eqn:Hl; split.
      * intros [= <-]. eauto.
      * intros (labels' & [= <-] & Hv). congruence.
      * discriminate.
      * intros (labels' & [= <-] & Hv). congruence.
    + split; [discriminate | intros (labels' & Hd & _); discriminate].
    + split; [discriminate | intros (labels' & Hd & _); discriminate].
  - destruct (Get nodeName) as [labels| |e].
    + destruct (labels !! label); split; discriminate.
    + split; reflexivity.
    + split; discriminate.
  - destruct (Get nodeName) as [labels| |e].
    + destruct (labels !! label) as [v|] eqn:Hl; split.
      * discriminate.
      * intros (labels' & [= <-] & Hv). congruence.
      * eauto.
      * reflexivity.
    + split; [discriminate | intros (labels' & Hd & _); discriminate].
    + split; [discriminate | intros (labels' & Hd & _); discriminate].
  - intros labels -> ->. reflexivity.
  - intros parseRFC3339 fetchSicData config Hlabel Hmiss.
    unfold Plugin.Score, GetNodeLabelValue. rewrite Hlabel.
    destruct Hmiss as [Hget|(labels & Hget & Hnone)]; rewrite Hget;
      [|rewrite Hnone]; reflexivity.
Qed.

End KubeinfoFacts.

(** ** The sample plugin *)

Section SamplePluginFacts.
Import Framework SamplePlugin.

(** What one iteration of the sample's second loop stores for [node]. *)
Lemma sample_rescale_pos (hs : Z) (post pre : NodeScoreList) :
  0 < hs ->
  rescale hs (length pre) (length post) (pre ++ post)
  = Returns
      (pre ++ map (fun node =>
                     mkNodeScore (Name node)
                       (Int64.wrap
                          (MaxNodeScore
                           - Int64.wrap (Framework.Score node * MaxNodeScore)
                             ÷ hs)))
                post).
Proof.
  intros Hhs. revert pre.
  induction post as [|node post IH]; intros pre.
  - reflexivity.
  - cbn [rescale length]. rewrite list_lookup_middle by reflexivity.
    unfold Int64.div. destruct (Z.eqb_spec hs 0) as [->|_]; [lia|].
    unfold Int64.mul.
    rewrite (wrap_in_range (_ ÷ hs))
      by (apply quot_in_range; [apply wrap_range | exact Hhs]).
    set (node' := mkNodeScore (Name node)
                    (Int64.wrap
                       (MaxNodeScore
                        - Int64.wrap (Framework.Score node * MaxNodeScore)
                          ÷ hs))).
    replace (<[length pre:=node']> (pre ++ node :: post))
      with ((pre ++ [node']) ++ post).
    + replace (S (length pre)) with (length (pre ++ [node']))
        by (rewrite length_app; simpl; lia).
      rewrite IH. rewrite <- app_assoc. reflexivity.
    + rewrite <- app_assoc. simpl.
      rewrite insert_app_r_alt by lia.
      rewrite Nat.sub_diag. reflexivity.
Qed.

Lemma sample_higherScore (nodeNames : list string) (hs : Z) :
  hs = 0 \/ hs = 100 ->
  fold_left (fun hs node =>
               if hs <? Framework.Score node then Framework.Score node
               else hs)
            (scored nodeNames) hs
  = if bool_decide ("k8s-worker1" ∈ nodeNames) then 100 else hs.
Proof.
  revert hs. induction nodeNames as [|name names IH]; intros hs Hhs.
  - reflexivity.
  - simpl. unfold Score at 1 2.
    destruct (String.eqb_spec name "k8s-worker1") as [->|Hne].
    + rewrite bool_decide_eq_true_2 by (apply elem_of_cons; auto).
      destruct Hhs as [->| ->]; simpl; rewrite IH by auto;
        destruct (bool_decide _); reflexivity.
    + assert (Hlt : (hs <? 0) = false) by (destruct Hhs; subst; reflexivity).
      rewrite Hlt, IH by exact Hhs.
      destruct (decide ("k8s-worker1" ∈ names)) as [Hin|Hnin].
      * rewrite !bool_decide_eq_true_2
          by (try apply elem_of_cons; auto).
        reflexivity.
      * rewrite (bool_decide_eq_false_2 _ Hnin).
        rewrite bool_decide_eq_false_2; [reflexivity|].
        intros H. apply elem_of_cons in H as [Heq|H]; [congruence | auto].
Qed.

(** X27: the sample plugin on a batch it scored itself.  If the batch
    holds the node [k8s-worker1], the only one its [Score] gives 100, then
    its [NormalizeScore] returns that node with 0 and every other node
    with 100: the scores are inverted.  If the batch is not empty and does
    not hold that node, every score is 0 and [NormalizeScore] panics with
    an integer division by zero. *)
Theorem SamplePlugin_inverts (nodeNames : list string) :
  ("k8s-worker1" ∈ nodeNames ->
   NormalizeScore (scored nodeNames)
   = Returns (map (fun nodeName =>
                     mkNodeScore nodeName
                       (if String.eqb nodeName "k8s-worker1" then 0 else 100))
                nodeNames))
  /\ (nodeNames <> [] -> "k8s-worker1" ∉ nodeNames ->
      NormalizeScore (scored nodeNames)
      = Panics "runtime error: integer divide by zero").
Proof.
  unfold NormalizeScore, Plugin.higherScore.
  rewrite sample_higherScore by auto. split.
  - intros Hin. rewrite bool_decide_eq_true_2 by exact Hin.
    pose proof (sample_rescale_pos 100 (scored nodeNames) [] ltac:(lia)) as Hr.
    simpl in Hr. rewrite Hr. f_equal. unfold scored. rewrite map_map.
    apply map_ext. intros name. simpl. unfold Score.
    destruct (String.eqb name "k8s-worker1"); reflexivity.
  - intros Hne Hnin. rewrite bool_decide_eq_false_2 by exact Hnin.
    destruct nodeNames as [|name names]; [congruence|]. reflexivity.
Qed.

Lemma SamplePlugin_inverts_witness :
  NormalizeScore (scored ["k8s-master"; "k8s-worker1"; "k8s-worker2"])
  = Returns [mkNodeScore "k8s-master" 100; mkNodeScore "k8s-worker1" 0;
             mkNodeScore "k8s-worker2" 100].
Proof.
  apply (proj1 (SamplePlugin_inverts
                  ["k8s-master"; "k8s-worker1"; "k8s-worker2"])).
  apply elem_of_cons. right. apply elem_of_cons. left. reflexivity.
Defined.

End SamplePluginFacts.
